(** * MailIntelKit: the DNS-record analysis engine

    A shallow embedding of [email_security_check/dns_utils.py] and of the
    scoring engine of [email_security_check/core.py], with the properties of
    the specification stated over it.

    Conventions.
    - A Python [str] is a [string]; one [ascii] is one code point below 256.
      The character tables ([is_space], [is_word], [lower_char]) are the ones
      CPython uses for these code points ([str.isspace], the [\w] and [\s]
      classes of [re] on [str] patterns, [str.lower]).
    - A Python [int] is a [Z].
    - A [dict] used as a mapping is a [gmap], a [set] is a [gset].
    - The DNS TXT resolver is a function from names to answers; the walk of
      SPF includes threads its accumulators through an explicit state. *)

From Stdlib Require Import ZArith NArith Bool Ascii String DecimalString.
From stdpp Require Import base option list gmap strings.

Local Open Scope string_scope.

(** ** Characters and the string methods the program calls *)

Module Py.

Definition code (c : ascii) : N := N_of_ascii c.

Definition between (lo hi : N) (c : ascii) : bool :=
  ((lo <=? code c) && (code c <=? hi))%N.

Definition is_code (n : N) (c : ascii) : bool := (code c =? n)%N.

(** [str.isspace] for one character; also the class [\s] of [re]. *)
Definition is_space (c : ascii) : bool :=
  between 9 13 c || between 28 32 c || is_code 133 c || is_code 160 c.

(** The class [\w] of [re]: alphanumeric characters and the underscore. *)
Definition is_word (c : ascii) : bool :=
  between 48 57 c || between 65 90 c || is_code 95 c || between 97 122 c
  || is_code 170 c || between 178 179 c || is_code 181 c || between 185 186 c
  || between 188 190 c || between 192 214 c || between 216 246 c
  || between 248 255 c.

(** [str.lower] for one character. *)
Definition lower_char (c : ascii) : ascii :=
  if between 65 90 c || between 192 214 c || between 216 222 c
  then ascii_of_N (code c + 32)
  else c.

Fixpoint lower (s : string) : string :=
  match s with
  | EmptyString => EmptyString
  | String c s' => String (lower_char c) (lower s')
  end.

(** Dropping the leading and the trailing characters of a class. *)
Fixpoint lstrip_by (p : ascii -> bool) (s : string) : string :=
  match s with
  | EmptyString => EmptyString
  | String c s' => if p c then lstrip_by p s' else s
  end.

Fixpoint rstrip_by (p : ascii -> bool) (s : string) : string :=
  match s with
  | EmptyString => EmptyString
  | String c s' =>
      match rstrip_by p s' with
      | EmptyString => if p c then EmptyString else String c EmptyString
      | r => String c r
      end
  end.

(** [s.strip()] *)
Definition strip (s : string) : string := rstrip_by is_space (lstrip_by is_space s).

(** [s.startswith(p)] *)
Definition startswith (s p : string) : bool := String.prefix p s.

(** [sub in s] *)
Fixpoint contains (sub s : string) : bool :=
  String.prefix sub s ||
  match s with
  | EmptyString => false
  | String _ s' => contains sub s'
  end.

(** [s.split(sep)] for a separator of one character. *)
Fixpoint split (sep : ascii) (s : string) : list string :=
  match s with
  | EmptyString => [EmptyString]
  | String c s' =>
      if Ascii.eqb c sep then EmptyString :: split sep s'
      else match split sep s' with
           | [] => [String c EmptyString]
           | p :: ps => String c p :: ps
           end
  end.

(** [s.split(sep, 1)] when [sep in s]: the text before the first separator
    and the text after it. *)
Fixpoint split_once (sep : ascii) (s : string) : string * string :=
  match s with
  | EmptyString => (EmptyString, EmptyString)
  | String c s' =>
      if Ascii.eqb c sep then (EmptyString, s')
      else let '(k, v) := split_once sep s' in (String c k, v)
  end.

(** [bool(s)]: a string is true when it is not empty. *)
Definition truthy (s : string) : bool :=
  match s with EmptyString => false | _ => true end.

(** [int(s)] in base 10: surrounding whitespace is dropped, a sign may
    come first, and single underscores may separate digits. [None] is
    [ValueError]. The whitespace [int] drops is narrower than [str.isspace]:
    the separators 28 to 31 are not part of it. (The interpreter's limit on
    the number of digits of a converted string is a setting of the
    interpreter and is not part of this model.) *)
Definition int_space (c : ascii) : bool :=
  between 9 13 c || is_code 32 c || is_code 133 c || is_code 160 c.

Definition digit_val (c : ascii) : option Z :=
  if between 48 57 c then Some (Z.of_N (code c) - 48)%Z else None.

Fixpoint digits (acc : Z) (after_digit : bool) (s : string) : option Z :=
  match s with
  | EmptyString => if after_digit then Some acc else None
  | String c s' =>
      match digit_val c with
      | Some d => digits (10 * acc + d)%Z true s'
      | None =>
          if Ascii.eqb c "_" && after_digit then digits acc false s' else None
      end
  end.

Definition int_of_str (s : string) : option Z :=
  match rstrip_by int_space (lstrip_by int_space s) with
  | String "+" s' => digits 0 false s'
  | String "-" s' => Z.opp <$> digits 0 false s'
  | s' => digits 0 false s'
  end.

(** [f"{n}"] for an integer. *)
Definition str_of_int (n : Z) : string := NilEmpty.string_of_int (Z.to_int n).

End Py.

(** ** The fragment of [re] the patterns of [dns_utils.py] use

    A backtracking matcher in continuation-passing style: alternatives are
    tried left to right, [+] is greedy, [\b] looks at the characters on both
    sides of the position. *)

Module Re.

Inductive regex : Type :=
| Eps                                  (* the empty pattern *)
| Lit (c : ascii)                      (* one literal character *)
| Bnd                                  (* \b *)
| PlusSet (p : ascii -> bool)          (* [set]+ , greedy *)
| Cat (r1 r2 : regex)
| Alt (r1 r2 : regex)
| Grp (r : regex).                     (* the capturing group ( ... ) *)

(** A literal word, character by character. *)
Fixpoint lits (s : string) : regex :=
  match s with
  | EmptyString => Eps
  | String c EmptyString => Lit c
  | String c s' => Cat (Lit c) (lits s')
  end.

Fixpoint alts (rs : list regex) : regex :=
  match rs with
  | [] => Eps
  | [r] => r
  | r :: rs' => Alt r (alts rs')
  end.

(** The position of the matcher: the character before it, the text after
    it, the number of characters consumed since the start of the attempt and
    the span of group 1. *)
Record cursor : Type := Cursor {
  prev : option ascii;
  rest : string;
  pos : nat;
  grp : option (nat * nat)
}.

Definition word_opt (o : option ascii) : bool :=
  match o with Some c => Py.is_word c | None => false end.

Definition next_char (s : string) : option ascii :=
  match s with String c _ => Some c | EmptyString => None end.

(** [\b]: exactly one side of the position is a word character. *)
Definition at_boundary (cu : cursor) : bool :=
  xorb (word_opt (prev cu)) (word_opt (next_char (rest cu))).

(** A literal under [re.I] compares lower-cased characters. *)
Definition lit_eq (ignorecase : bool) (c d : ascii) : bool :=
  if ignorecase then Ascii.eqb (Py.lower_char c) (Py.lower_char d)
  else Ascii.eqb c d.

(** A match object: [group(0)] and [group(1)]. *)
Record rmatch : Type := Match { group0 : string; group1 : option string }.

Definition length0 (m : rmatch) : nat := String.length (group0 m).

Section Matcher.
Variable ignorecase : bool.

Fixpoint plus_set (p : ascii -> bool) (s : string) (n : nat)
    (g : option (nat * nat)) (k : cursor -> option cursor) : option cursor :=
  match s with
  | EmptyString => None
  | String c s' =>
      if p c then
        match plus_set p s' (S n) g k with
        | Some r => Some r
        | None => k (Cursor (Some c) s' (S n) g)
        end
      else None
  end.

Fixpoint run (r : regex) (cu : cursor) (k : cursor -> option cursor)
    : option cursor :=
  match r with
  | Eps => k cu
  | Lit c =>
      match rest cu with
      | String d s' =>
          if lit_eq ignorecase c d
          then k (Cursor (Some d) s' (S (pos cu)) (grp cu))
          else None
      | EmptyString => None
      end
  | Bnd => if at_boundary cu then k cu else None
  | PlusSet p => plus_set p (rest cu) (pos cu) (grp cu) k
  | Cat r1 r2 => run r1 cu (fun cu' => run r2 cu' k)
  | Alt r1 r2 =>
      match run r1 cu k with
      | Some x => Some x
      | None => run r2 cu k
      end
  | Grp r1 =>
      run r1 cu (fun cu' =>
        k (Cursor (prev cu') (rest cu') (pos cu') (Some (pos cu, pos cu'))))
  end.

(** One attempt at a fixed position, [p] being the character before it. *)
Definition match_at (r : regex) (p : option ascii) (s : string)
    : option rmatch :=
  match run r (Cursor p s 0 None) Some with
  | Some cu =>
      Some (Match (substring 0 (pos cu) s)
              (match grp cu with
               | Some (a, b) => Some (substring a (b - a) s)
               | None => None
               end))
  | None => None
  end.

(** [re.search]: the first position, left to right, where an attempt
    succeeds. *)
Fixpoint search_from (r : regex) (p : option ascii) (s : string)
    : option rmatch :=
  match match_at r p s with
  | Some m => Some m
  | None =>
      match s with
      | EmptyString => None
      | String c s' => search_from r (Some c) s'
      end
  end.

Definition search (r : regex) (s : string) : option rmatch :=
  search_from r None s.

(** The successive non-overlapping matches, left to right. After a match
    of [n] characters the scan resumes [n] characters further ([skip]
    counts the characters still to pass over); after an empty match it
    resumes one character further. *)
Fixpoint finditer_from (r : regex) (p : option ascii) (s : string)
    (skip : nat) : list rmatch :=
  match skip with
  | S n =>
      match s with
      | EmptyString => []
      | String c s' => finditer_from r (Some c) s' n
      end
  | O =>
      match match_at r p s with
      | Some m =>
          m :: match s with
               | EmptyString => []
               | String c s' => finditer_from r (Some c) s' (length0 m - 1)
               end
      | None =>
          match s with
          | EmptyString => []
          | String c s' => finditer_from r (Some c) s' 0
          end
      end
  end.

Fixpoint has_group (r : regex) : bool :=
  match r with
  | Grp _ => true
  | Cat r1 r2 | Alt r1 r2 => has_group r1 || has_group r2
  | _ => false
  end.

(** [pattern.findall(s)]: group 1 of every match when the pattern has a
    group, the whole match otherwise. *)
Definition findall (r : regex) (s : string) : list string :=
  map (fun m => if has_group r then default EmptyString (group1 m)
                else group0 m)
      (finditer_from r None s 0).

(** [re.sub(pattern, repl, s)] for a replacement without back-references:
    matched stretches are replaced, the other characters are copied. *)
Fixpoint sub_from (r : regex) (repl : string) (p : option ascii)
    (s : string) (skip : nat) : string :=
  match skip with
  | S n =>
      match s with
      | EmptyString => EmptyString
      | String c s' => sub_from r repl (Some c) s' n
      end
  | O =>
      match match_at r p s with
      | Some m =>
          repl ++
          match s with
          | EmptyString => EmptyString
          | String c s' =>
              match length0 m with
              | O => String c (sub_from r repl (Some c) s' 0)
              | S n => sub_from r repl (Some c) s' n
              end
          end
      | None =>
          match s with
          | EmptyString => EmptyString
          | String c s' => String c (sub_from r repl (Some c) s' 0)
          end
      end
  end.

Definition sub (r : regex) (repl s : string) : string :=
  sub_from r repl None s 0.

End Matcher.

End Re.

(** ** [dns_utils.py]: configuration and the SPF parser *)

Definition SPF_DNS_LOOKUP_LIMIT : Z := 10.
Definition MAX_INCLUDE_RECURSION : Z := 10.

Definition not_space (c : ascii) : bool := negb (Py.is_space c).

(** [re.compile(r"\binclude:([^\s]+)", re.I)] *)
Definition SPF_INCLUDE_RE : Re.regex :=
  Re.Cat Re.Bnd (Re.Cat (Re.lits "include:") (Re.Grp (Re.PlusSet not_space))).

(** [re.compile(r"\bredirect=([^\s]+)", re.I)] *)
Definition SPF_REDIRECT_RE : Re.regex :=
  Re.Cat Re.Bnd (Re.Cat (Re.lits "redirect=") (Re.Grp (Re.PlusSet not_space))).

(** [re.compile(r"\b(?:include:[^\s]+|exists:[^\s]+|ptr\b|mx\b|a\b|redirect=[^\s]+)", re.I)] *)
Definition SPF_MECHANISM_LOOKUP_RE : Re.regex :=
  Re.Cat Re.Bnd
    (Re.alts
       [ Re.Cat (Re.lits "include:") (Re.PlusSet not_space);
         Re.Cat (Re.lits "exists:") (Re.PlusSet not_space);
         Re.Cat (Re.lits "ptr") Re.Bnd;
         Re.Cat (Re.lits "mx") Re.Bnd;
         Re.Cat (Re.lits "a") Re.Bnd;
         Re.Cat (Re.lits "redirect=") (Re.PlusSet not_space) ]).

(** [re.compile(r"\b(?:~all|-all|\+all|\?all)\b", re.I)] *)
Definition SPF_ALL_RE : Re.regex :=
  Re.Cat Re.Bnd
    (Re.Cat
       (Re.alts [ Re.lits "~all"; Re.lits "-all"; Re.lits "+all"; Re.lits "?all" ])
       Re.Bnd).

(** The dict [parse_spf] returns, as the record of [models.SPFDetail]. *)
Record SPFDetail : Type := {
  raw : string;
  includes : list string;
  redirect : option string;
  lookup_mechanisms : list string;
  all_mechanism : option string
}.

Definition parse_spf (spf_text : string) : SPFDetail :=
  let includes := Re.findall true SPF_INCLUDE_RE spf_text in
  let redirect := Re.findall true SPF_REDIRECT_RE spf_text in
  let lookup_mechanisms := Re.findall true SPF_MECHANISM_LOOKUP_RE spf_text in
  let all_match := Re.search true SPF_ALL_RE spf_text in
  {| raw := spf_text;
     includes := includes;
     redirect := head redirect;
     lookup_mechanisms := lookup_mechanisms;
     all_mechanism := Re.group0 <$> all_match |}.

(** ** The DNS TXT resolver

    [dns_query_txt] answers a name with its TXT strings; the failures it
    catches itself (no answer, no such domain, any DNS exception) are the
    empty answer. Any other exception reaches the caller with its text. *)

Inductive answer : Type :=
| Txts (txts : list string)
| Raised (e : string).

(** [t.strip().lower().startswith("v=spf1")] *)
Definition is_spf (t : string) : bool :=
  Py.startswith (Py.lower (Py.strip t)) "v=spf1".

(** ** The SPF lookup resolver *)

(** What the walk does, in order. This log is not a variable of the program:
    it records the calls the program makes, for the statements about them. *)
Inductive event : Type :=
| Enter (name : string) (depth : Z)      (* a call of [_recurse] *)
| Query (name : string).                 (* a call of [dns_query_txt] *)

(** The variables [_recurse] shares with [resolve_spf_lookups]. *)
Record walk : Type := Walk {
  resolved : gset string;
  visited : gset string;
  errors : list string;
  lookup_count : Z;
  trace : list event
}.

Definition walk0 : walk := Walk ∅ ∅ [] 0 [].

Definition log (e : event) (w : walk) : walk :=
  Walk (resolved w) (visited w) (errors w) (lookup_count w) (trace w ++ [e])%list.

Definition add_error (e : string) (w : walk) : walk :=
  Walk (resolved w) (visited w) (errors w ++ [e])%list (lookup_count w) (trace w).

Definition add_lookups (n : Z) (w : walk) : walk :=
  Walk (resolved w) (visited w) (errors w) (lookup_count w + n) (trace w).

Definition add_visited (x : string) (w : walk) : walk :=
  Walk (resolved w) ({[x]} ∪ visited w) (errors w) (lookup_count w) (trace w).

Definition add_resolved (x : string) (w : walk) : walk :=
  Walk ({[x]} ∪ resolved w) (visited w) (errors w) (lookup_count w) (trace w).

(** A [for] loop whose body updates the walk; [None] is a body that ran out
    of fuel. *)
Fixpoint for_each {A : Type} (l : list A) (body : A -> walk -> option walk)
    (w : walk) : option walk :=
  match l with
  | [] => Some w
  | x :: l' =>
      match body x w with
      | Some w' => for_each l' body w'
      | None => None
      end
  end.

(** The include targets of one SPF text, as the loop of [_recurse] sees
    them: [inc.strip()] for [inc] in [SPF_INCLUDE_RE.findall(txt)]. *)
Definition include_targets (txt : string) : list string :=
  map Py.strip (Re.findall true SPF_INCLUDE_RE txt).

Definition depth_error (name : string) : string :=
  "spf include recursion depth exceeded at " ++ name.

Definition include_error (inc e : string) : string :=
  "error resolving include " ++ inc ++ ": " ++ e.

Section Resolver.
Variable dns_query_txt : string -> answer.
Variable max_recursion : Z.

(** [_recurse]. The recursion of the program is bounded by [depth]; here
    it is structural on [fuel], and [None] means the fuel ran out. *)
Fixpoint _recurse (fuel : nat) (name txt : string) (depth : Z) (w : walk)
    : option walk :=
  match fuel with
  | O => None
  | S fuel' =>
      let w := log (Enter name depth) w in
      if (depth >? max_recursion)%Z then
        Some (add_error (depth_error name) w)
      else
        let mechs := Re.findall true SPF_MECHANISM_LOOKUP_RE txt in
        let w := add_lookups (Z.of_nat (length mechs)) w in
        for_each (include_targets txt) (fun inc w =>
          if decide (inc ∈ visited w) then Some w
          else
            let w := add_visited inc w in
            match dns_query_txt inc with
            | Txts inc_txts =>
                let w := log (Query inc) w in
                let found_spf := filter (fun t => is_spf t = true) inc_txts in
                let w := add_resolved inc w in
                (* [if found_spf:] guards a loop that does nothing on an
                   empty list *)
                for_each found_spf (fun s w =>
                  _recurse fuel' inc s (depth + 1) w) w
            | Raised e =>
                let w := log (Query inc) w in
                Some (add_error (include_error inc e) w)
            end) w
  end.

(** Fuel that always suffices for a call at [depth]. *)
Definition enough (depth : Z) : nat := S (Z.to_nat (max_recursion + 1 - depth)).

Definition resolve_walk (domain spf_text : string) : option walk :=
  _recurse (enough 0) domain spf_text 0 walk0.

(** [resolve_spf_lookups]: (resolved, lookup_count, errors). *)
Definition resolve_spf_lookups (domain spf_text : string)
    : option (gset string * Z * list string) :=
  w ← resolve_walk domain spf_text;
  Some (resolved w, lookup_count w, errors w).

End Resolver.

(** The names queried during a walk, in order. *)
Definition queries (w : walk) : list string :=
  omap (fun e => match e with Query n => Some n | Enter _ _ => None end) (trace w).

(** The names [_recurse] was called on, with the depth of the call. *)
Definition entered (w : walk) : list (string * Z) :=
  omap (fun e => match e with Enter n d => Some (n, d) | Query _ => None end) (trace w).

(** ** The DMARC parser *)

(** The body of the loop of [parse_dmarc] for one part [p], already
    stripped. *)
Definition dmarc_part (tags : gmap string string) (p : string)
    : gmap string string :=
  if Py.contains "=" p then
    let '(k, v) := Py.split_once "=" p in
    <[Py.lower (Py.strip k) := Py.strip v]> tags
  else tags.

Definition parse_dmarc (dmarc_text : string) : gmap string string :=
  let parts := map Py.strip (Py.split ";" dmarc_text) in
  fold_left dmarc_part parts ∅.

(** ** The DKIM selector prober *)

(** The dict [check_dkim_selector] returns, as the record of
    [models.DKIMInfo]; its key [raw] is the field [dkim_raw]. *)
Record DKIMInfo : Type := {
  selector : string;
  name : string;
  present : bool;
  dkim_raw : option string;
  key_type : option string;
  key_bits_approx : option Z;
  has_pub : bool
}.

(** [r"\bp=([^;]+)"] and [r"\bk=([^;]+)"], without flags. *)
Definition not_semicolon (c : ascii) : bool := negb (Ascii.eqb c ";").

Definition DKIM_P_RE : Re.regex :=
  Re.Cat Re.Bnd (Re.Cat (Re.lits "p=") (Re.Grp (Re.PlusSet not_semicolon))).

Definition DKIM_K_RE : Re.regex :=
  Re.Cat Re.Bnd (Re.Cat (Re.lits "k=") (Re.Grp (Re.PlusSet not_semicolon))).

(** [r"\s+"] *)
Definition SPACES_RE : Re.regex := Re.PlusSet Py.is_space.

(** [m.group(1).strip()] of a search, when it matches. *)
Definition stripped_group1 (r : Re.regex) (txt : string) : option string :=
  m ← Re.search false r txt;
  Some (Py.strip (default EmptyString (Re.group1 m))).

(** The TXT string the prober reads: the first one that holds [v=DKIM1] or
    [p=], else the first one. *)
Definition choose_dkim_txt (t0 : string) (txts : list string) : string :=
  match find (fun t => Py.contains "v=DKIM1" t || Py.contains "p=" t) txts with
  | Some t => if Py.truthy t then t else t0
  | None => t0
  end.

(** The part of [check_dkim_selector] after the query. *)
Definition dkim_info (selector name : string) (txts : list string) : DKIMInfo :=
  match txts with
  | [] =>
      {| selector := selector; name := name; present := false;
         dkim_raw := None; key_type := None; key_bits_approx := None;
         has_pub := false |}
  | t0 :: _ =>
      let dkim_txt := choose_dkim_txt t0 txts in
      let m_p := stripped_group1 DKIM_P_RE dkim_txt in
      let has_pub :=
        match m_p with
        | Some pub => Py.truthy pub && negb (String.eqb pub "-")
        | None => false
        end in
      let bits :=
        match m_p with
        | Some pub =>
            if has_pub then
              let cleaned := Re.sub false SPACES_RE "" pub in
              Some (Z.of_nat (String.length cleaned) * 6)%Z
            else None
        | None => None
        end in
      {| selector := selector; name := name; present := true;
         dkim_raw := Some dkim_txt;
         key_type := stripped_group1 DKIM_K_RE dkim_txt;
         key_bits_approx := bits;
         has_pub := has_pub |}
  end.

(** The result of a call that may raise. *)
Inductive outcome (A : Type) : Type :=
| Returns (a : A)
| Raises (e : string).
Arguments Returns {A} a.
Arguments Raises {A} e.

Definition check_dkim_selector (dns_query_txt : string -> answer)
    (domain selector : string) : outcome DKIMInfo :=
  let name := selector ++ "._domainkey." ++ domain in
  match dns_query_txt name with
  | Txts txts => Returns (dkim_info selector name txts)
  | Raised e => Raises e
  end.

(** The value [p=] carries in the TXT string a result was read from. *)
Definition extracted_p (info : DKIMInfo) : option string :=
  txt ← dkim_raw info; stripped_group1 DKIM_P_RE txt.

(** A string without its whitespace characters. *)
Fixpoint remove_spaces (s : string) : string :=
  match s with
  | EmptyString => EmptyString
  | String c s' =>
      if Py.is_space c then remove_spaces s' else String c (remove_spaces s')
  end.

(** ** [core.py]: the scoring engine *)

(** [score] and [reasons] while the rules run. *)
Definition verdict : Type := (Z * list string)%type.

(** [score -= n; reasons.append(r)] *)
Definition deduct (n : Z) (r : string) (v : verdict) : verdict :=
  ((fst v - n)%Z, (snd v ++ [r])%list).

(** [reasons.append(r)] alone. *)
Definition note (r : string) (v : verdict) : verdict :=
  (fst v, (snd v ++ [r])%list).

(** The body of [for d in spf_details]. The dash of the four messages about
    a qualifier is U+2014, outside the code points below 256; the messages
    hold its UTF-8 bytes. *)
Definition score_spf_detail (v : verdict) (d : SPFDetail) : verdict :=
  match all_mechanism d with
  | None | Some EmptyString =>
      deduct 5 "SPF record has no 'all' mechanism - may allow unintended senders." v
  | Some all_mech =>
      if String.eqb (Py.lower all_mech) "+all" then
        deduct 25 "SPF uses +all (permits everything) — critical misconfiguration." v
      else if String.eqb (Py.lower all_mech) "?all" then
        deduct 10 "SPF uses ?all (neutral) — weak protection." v
      else if String.eqb (Py.lower all_mech) "~all" then
        deduct 3 "SPF uses ~all (softfail) — allows some leeway." v
      else if String.eqb (Py.lower all_mech) "-all" then
        note "SPF uses -all (reject) — strict, good." v
      else v
  end.

Definition over_limit_reason (spf_lookup_count : Z) : string :=
  "SPF mechanisms likely cause " ++ Py.str_of_int spf_lookup_count
  ++ " DNS lookups (> " ++ Py.str_of_int SPF_DNS_LOOKUP_LIMIT
  ++ "). This can break SPF enforcement.".

Definition near_limit_reason (spf_lookup_count : Z) : string :=
  "SPF mechanisms cause " ++ Py.str_of_int spf_lookup_count
  ++ " DNS lookups (close to limit).".

(** The rule on the total lookup count (the last rule of the SPF block). *)
Definition score_spf_lookups (spf_lookup_count : Z) (v : verdict) : verdict :=
  if (spf_lookup_count >? SPF_DNS_LOOKUP_LIMIT)%Z then
    deduct 20 (over_limit_reason spf_lookup_count) v
  else if (spf_lookup_count >? SPF_DNS_LOOKUP_LIMIT - 3)%Z then
    deduct 7 (near_limit_reason spf_lookup_count) v
  else v.

(** The state of the SPF block just before the rule on the lookup count,
    when SPF records exist. *)
Definition score_spf_records (spf_records : list string)
    (spf_details : list SPFDetail) (v : verdict) : verdict :=
  let v := if (Z.of_nat (length spf_records) >? 1)%Z
           then deduct 30 "Multiple SPF records found (invalid SPF configuration)." v
           else v in
  fold_left score_spf_detail spf_details v.

(** The SPF block: [if not spf_records: ... else: ...]. *)
Definition score_spf (spf_records : list string) (spf_details : list SPFDetail)
    (spf_lookup_count : Z) (v : verdict) : verdict :=
  match spf_records with
  | [] => deduct 40 "No SPF record found (high risk of spoofing)." v
  | _ :: _ =>
      score_spf_lookups spf_lookup_count
        (score_spf_records spf_records spf_details v)
  end.

(** [not dmarc_text]: no text, or an empty one. *)
Definition absent (o : option string) : bool :=
  match o with
  | None => true
  | Some s => negb (Py.truthy s)
  end.

(** The DMARC block. *)
Definition score_dmarc (dmarc_text : option string)
    (dmarc_tags : gmap string string) (v : verdict) : verdict :=
  if absent dmarc_text then
    deduct 30 "No DMARC record found (no domain-wide policy for unauthenticated mail)." v
  else
    let p := Py.lower (default "" (dmarc_tags !! "p")) in
    let v :=
      if String.eqb p "none" || String.eqb p "" then
        deduct 10 "DMARC policy p=none (monitoring only). Consider p=quarantine or p=reject." v
      else if String.eqb p "quarantine" then
        deduct 3 "DMARC policy p=quarantine (moderate)." v
      else if String.eqb p "reject" then
        note "DMARC policy p=reject (strong)." v
      else v in
    let pct := default 100%Z (Py.int_of_str (default "100" (dmarc_tags !! "pct"))) in
    let v :=
      if (pct <? 100)%Z then
        deduct 5 ("DMARC pct=" ++ Py.str_of_int pct ++ " (not applied to all mail).") v
      else v in
    match dmarc_tags !! "rua" with
    | None =>
        deduct 3 "No RUA (aggregate) reporting configured (you won't get aggregate reports)." v
    | Some _ => v
    end.

(** The body of [for kinfo in dkim_infos]. *)
Definition score_dkim_info (v : verdict) (kinfo : DKIMInfo) : verdict :=
  match key_bits_approx kinfo with
  | None => v
  | Some bits =>
      if (bits =? 0)%Z then v
      else if (bits <? 1024)%Z then
        deduct 10 ("DKIM selector " ++ selector kinfo ++ " has a weak public key (~"
                   ++ Py.str_of_int bits ++ " bits estimated).") v
      else if (bits <? 2048)%Z then
        deduct 3 ("DKIM selector " ++ selector kinfo ++ " uses ~"
                  ++ Py.str_of_int bits ++ " bits (consider 2048).") v
      else
        note ("DKIM selector " ++ selector kinfo ++ " key size looks OK (~"
              ++ Py.str_of_int bits ++ " bits).") v
  end.

(** The DKIM block. *)
Definition score_dkim (dkim_infos : list DKIMInfo) (v : verdict) : verdict :=
  match dkim_infos with
  | [] => deduct 10 "No DKIM selectors found using heuristics (may not use DKIM)." v
  | _ :: _ => fold_left score_dkim_info dkim_infos v
  end.

(** [score] and [reasons] after the last rule, before the two clamps. *)
Definition score_rules (spf_records : list string) (spf_details : list SPFDetail)
    (spf_lookup_count : Z) (spf_errors : list string)
    (dmarc_text : option string) (dmarc_tags : gmap string string)
    (dkim_infos : list DKIMInfo) : verdict :=
  score_dkim dkim_infos
    (score_dmarc dmarc_text dmarc_tags
       (score_spf spf_records spf_details spf_lookup_count (100%Z, []))).

(** [if score < 0: score = 0] *)
Definition clamp_low (score : Z) : Z := if (score <? 0)%Z then 0%Z else score.

(** [if score > 100: score = 100] *)
Definition clamp_high (score : Z) : Z := if (score >? 100)%Z then 100%Z else score.

Record Conclusions : Type := { score : Z; reasons : list string }.

Definition score_and_conclusions (spf_records : list string)
    (spf_details : list SPFDetail) (spf_lookup_count : Z)
    (spf_errors : list string) (dmarc_text : option string)
    (dmarc_tags : gmap string string) (dkim_infos : list DKIMInfo)
    : Conclusions :=
  let v := score_rules spf_records spf_details spf_lookup_count spf_errors
             dmarc_text dmarc_tags dkim_infos in
  {| score := clamp_high (clamp_low (fst v)); reasons := snd v |}.

(** ** [dns_utils.py]: record discovery *)

Definition DEFAULT_DKIM_SELECTORS : list string :=
  [ "default"; "selector1"; "s1"; "google"; "google1"; "mail"; "smtp"; "dkim";
    "mx"; "selector"; "k1"; "k2"; "mta" ].

Definition AGGRESSIVE_DKIM_SELECTORS_A : list string :=
  [ "default"; "selector"; "selector1"; "selector2"; "s1"; "s2"; "google";
    "google1"; "google2"; "mta"; "amazonses"; "mail"; "smtp"; "dkim"; "mx"; "k1";
    "k2"; "201608"; "2019"; "2020"; "2021"; "2022"; "mail1"; "mail2"; "smtp1" ].

Definition AGGRESSIVE_DKIM_SELECTORS : list string :=
  [ "default"; "selector"; "selector1"; "selector2"; "s"; "s1"; "s2"; "sel";
    "mail"; "smtp"; "mx"; "dkim"; "k"; "key"; "google"; "google1"; "google2";
    "mta"; "amazonses"; "k1"; "k2"; "201608"; "2019"; "2020"; "2021"; "2022";
    "mail1"; "mail2"; "smtp1"; "sendgrid"; "mailgun"; "mandrill"; "zoho";
    "outlook"; "office"; "o365"; "microsoft"; "sparkpost"; "postfix";
    "postmark"; "mailchimp"; "ses"; "sendinblue"; "elasticemail"; "yandex";
    "icloud"; "protonmail"; "fastmail"; "gws"; "gapp"; "domainkey"; "email";
    "hosted"; "secure"; "info"; "securemail" ].

(** [get_spf_records]: the TXT strings of the domain that start with
    [v=spf1]. The query is not guarded: what it raises, the call raises. *)
Definition get_spf_records (dns_query_txt : string -> answer) (domain : string)
    : outcome (list string) :=
  match dns_query_txt domain with
  | Txts txts => Returns (filter (fun t => is_spf t = true) txts)
  | Raised e => Raises e
  end.

(** [t.strip().lower().startswith("v=dmarc1")] *)
Definition is_dmarc (t : string) : bool :=
  Py.startswith (Py.lower (Py.strip t)) "v=dmarc1".

(** [get_dmarc_record]: the first TXT string of [_dmarc.<domain>] that
    starts with [v=dmarc1], or [None]. *)
Definition get_dmarc_record (dns_query_txt : string -> answer) (domain : string)
    : outcome (option string) :=
  let name := "_dmarc." ++ domain in
  match dns_query_txt name with
  | Txts txts => Returns (find is_dmarc txts)
  | Raised e => Raises e
  end.

(** The loop of [discover_dkim_selectors]: one probe per selector, in list
    order; [found] collects the infos that are present. *)
Fixpoint discover_loop (dns_query_txt : string -> answer) (domain : string)
    (selectors : list string) (found : list DKIMInfo)
    : outcome (list DKIMInfo) :=
  match selectors with
  | [] => Returns found
  | sel :: selectors' =>
      match check_dkim_selector dns_query_txt domain sel with
      | Returns info =>
          discover_loop dns_query_txt domain selectors'
            (if present info then app found [info] else found)
      | Raises e => Raises e
      end
  end.

Definition discover_dkim_selectors (dns_query_txt : string -> answer)
    (domain : string) (aggressive : bool) : outcome (list DKIMInfo) :=
  let selectors :=
    if aggressive then AGGRESSIVE_DKIM_SELECTORS else DEFAULT_DKIM_SELECTORS in
  discover_loop dns_query_txt domain selectors [].

(** ** [core.py]: the report assembler *)

(** The dict [generate_report] returns, without its two readings of the
    clock ([time_utc] and [elapsed_seconds]), which no rule looks at. *)
Record Report : Type := {
  rep_domain : string;
  rep_spf_records : list string;               (* out["spf"]["records"] *)
  rep_spf_details : list SPFDetail;            (* out["spf"]["details"] *)
  rep_lookup_count : Z;       (* out["spf"]["estimated_dns_lookup_count"] *)
  rep_spf_errors : list string;                (* out["spf"]["errors"] *)
  rep_dmarc_raw : option string;               (* out["dmarc"]["raw"] *)
  rep_dmarc_tags : gmap string string;         (* out["dmarc"]["tags"] *)
  rep_found_selectors : list DKIMInfo;         (* out["dkim"]["found_selectors"] *)
  rep_aggressive_checked : bool;               (* out["dkim"]["aggressive_checked"] *)
  rep_conclusions : Conclusions                (* out["conclusions"] *)
}.

(** The accumulators of the loop over the SPF records: [spf_details],
    [total_lookup_count], [spf_errors]. *)
Definition spf_totals : Type := (list SPFDetail * Z * list string)%type.

(** [for s in spf_records: ...]. [None] is a walk that ran out of fuel. *)
Fixpoint spf_loop (dns_query_txt : string -> answer) (domain : string)
    (spf_records : list string) (acc : spf_totals) : option spf_totals :=
  match spf_records with
  | [] => Some acc
  | s :: spf_records' =>
      let '(spf_details, total_lookup_count, spf_errors) := acc in
      let parsed := parse_spf s in
      match resolve_spf_lookups dns_query_txt MAX_INCLUDE_RECURSION domain s with
      | Some (_, lookup_count, errors) =>
          spf_loop dns_query_txt domain spf_records'
            (app spf_details [parsed], (total_lookup_count + lookup_count)%Z,
             app spf_errors errors)
      | None => None
      end
  end.

(** [generate_report]. The three discovery calls are not guarded: what
    they raise, the report raises. *)
Definition generate_report (dns_query_txt : string -> answer) (domain : string)
    (aggressive_dkim : bool) : option (outcome Report) :=
  match get_spf_records dns_query_txt domain with
  | Raises e => Some (Raises e)
  | Returns spf_records =>
      match spf_loop dns_query_txt domain spf_records ([], 0%Z, []) with
      | None => None
      | Some (spf_details, total_lookup_count, spf_errors) =>
          match get_dmarc_record dns_query_txt domain with
          | Raises e => Some (Raises e)
          | Returns dmarc_text =>
              let tags :=
                match dmarc_text with
                | Some t => if Py.truthy t then parse_dmarc t else ∅
                | None => ∅
                end in
              match discover_dkim_selectors dns_query_txt domain aggressive_dkim with
              | Raises e => Some (Raises e)
              | Returns dkim_infos =>
                  let conclusions :=
                    score_and_conclusions spf_records spf_details
                      total_lookup_count spf_errors dmarc_text tags dkim_infos in
                  Some (Returns
                    {| rep_domain := domain;
                       rep_spf_records := spf_records;
                       rep_spf_details := spf_details;
                       rep_lookup_count := total_lookup_count;
                       rep_spf_errors := spf_errors;
                       rep_dmarc_raw := dmarc_text;
                       rep_dmarc_tags := tags;
                       rep_found_selectors := dkim_infos;
                       rep_aggressive_checked := aggressive_dkim;
                       rep_conclusions := conclusions |})
              end
          end
      end
  end.

(** * The vocabulary of the statements *)

(** A DNS zone given as a table of names and their TXT strings. *)
Fixpoint zone_lookup (zone : list (string * list string)) (name : string)
    : list string :=
  match zone with
  | [] => []
  | (n, txts) :: zone' => if String.eqb n name then txts else zone_lookup zone' name
  end.

Definition dns_of_zone (zone : list (string * list string)) (name : string)
    : answer := Txts (zone_lookup zone name).

(** Eleven nested includes, [d0] to [d11], closed into a cycle by the
    record of [d11], which also holds two other lookup mechanisms. *)
Definition chain_zone : list (string * list string) :=
  [ ("d1", ["v=spf1 include:d2 -all"]); ("d2", ["v=spf1 include:d3 -all"]);
    ("d3", ["v=spf1 include:d4 -all"]); ("d4", ["v=spf1 include:d5 -all"]);
    ("d5", ["v=spf1 include:d6 -all"]); ("d6", ["v=spf1 include:d7 -all"]);
    ("d7", ["v=spf1 include:d8 -all"]); ("d8", ["v=spf1 include:d9 -all"]);
    ("d9", ["v=spf1 include:d10 -all"]); ("d10", ["v=spf1 include:d11 -all"]);
    ("d11", ["v=spf1 mx a include:d0 -all"]);
    ("d0", ["v=spf1 include:d1 -all"]) ].

(** The four forms of the [all] mechanism. *)
Definition qualifiers : list string := ["~all"; "-all"; "+all"; "?all"].

(** A text that is empty or starts with a character outside a class. *)
Definition clean_start (p : ascii -> bool) (s : string) : Prop :=
  match s with
  | EmptyString => True
  | String c _ => p c = false
  end.

(** Tag names are lower-cased and values are trimmed. *)
Definition normal_tags (tags : gmap string string) : Prop :=
  forall k v, tags !! k = Some v -> Py.lower k = k /\ Py.strip v = v.

(** The record of the DMARC example. *)
Definition dmarc_example : string := "v=DMARC1; p=reject; pct=50; rua=mailto:x@y.com".

(** The number of leading characters of a class. *)
Fixpoint run_length (p : ascii -> bool) (s : string) : nat :=
  match s with
  | EmptyString => O
  | String c s' => if p c then S (run_length p s') else O
  end.

(** [n] copies of a string, one after the other. *)
Fixpoint copies (n : nat) (s : string) : string :=
  match n with
  | O => EmptyString
  | S n' => s ++ copies n' s
  end.

(** A selector record whose key is 256 base64 characters, broken in two by
    a space. *)
Definition dkim_zone : list (string * list string) :=
  [ ("s1._domainkey.example.com",
     [ "v=DKIM1; k=rsa; p=" ++ copies 16 "MIGfMA0G" ++ " " ++ copies 16 "CSqGSIb3" ]) ].

(** The names the walk of the chain asks for, in order. *)
Definition chain_names : list string :=
  ["d1"; "d2"; "d3"; "d4"; "d5"; "d6"; "d7"; "d8"; "d9"; "d10"; "d11"].

(** Every name queried so far is marked visited, and none was queried
    twice. *)
Definition queried_once (w : walk) : Prop :=
  NoDup (queries w) /\ forall n, n ∈ queries w -> n ∈ visited w.

(** Two resolvers answer alike on every name queried so far. *)
Definition same_answers (dns1 dns2 : string -> answer) (w : walk) : Prop :=
  forall n, n ∈ queries w -> dns1 n = dns2 n.

(** The SPF record of [d0], where the walk of the chain starts. *)
Definition chain_text : string := "v=spf1 include:d1 -all".

(** The chain, and a record at a name the walk never asks for. *)
Definition wider_zone : list (string * list string) :=
  ("unrelated.example", ["v=spf1 include:d5 -all"]) :: chain_zone.

(** Every TXT string of a zone. *)
Definition zone_texts (zone : list (string * list string)) : list string :=
  concat (map snd zone).

(** A zone where the redirect target publishes an SPF record of its own. *)
Definition redirect_zone : list (string * list string) :=
  [ ("a.example", ["v=spf1 mx -all"]);
    ("r.example", ["v=spf1 include:deep.example mx -all"]);
    ("deep.example", ["v=spf1 a -all"]) ].

(** An SPF record with one include and one redirect. *)
Definition redirect_text : string := "v=spf1 include:a.example redirect=r.example".

(** [target] was not queried, is not among the resolved domains, and
    [_recurse] was not called on it, unless it is the domain the walk
    started from. *)
Definition avoided (domain target : string) (w : walk) : Prop :=
  (target ∉ queries w)
  /\ (target ∉ resolved w)
  /\ forall d, (target, d) ∈ entered w -> target = domain /\ d = 0%Z.

(** Every character of a string is in a class. *)
Fixpoint all_chars (p : ascii -> bool) (s : string) : Prop :=
  match s with
  | EmptyString => True
  | String c s' => p c = true /\ all_chars p s'
  end.

(** The character before the position reached after a prefix. *)
Fixpoint last_opt (p : option ascii) (s : string) : option ascii :=
  match s with
  | EmptyString => p
  | String c s' => last_opt (Some c) s'
  end.

Definition tagged (w : string) (p : ascii -> bool) : Re.regex :=
  Re.Cat Re.Bnd (Re.Cat (Re.lits w) (Re.Grp (Re.PlusSet p))).

(** The bookkeeping of a walk agrees with its log. *)
Definition tidy (dns_query_txt : string -> answer) (w : walk) : Prop :=
  (forall n, n ∈ visited w <-> n ∈ queries w)
  /\ (forall n, n ∈ resolved w <->
                n ∈ queries w /\ exists txts, dns_query_txt n = Txts txts).


(** The depths at which [_recurse] was called. *)
Definition depths_within (max_recursion : Z) (w : walk) : Prop :=
  forall n d, (n, d) ∈ entered w -> (0 <= d <= Z.max 0 (max_recursion + 1))%Z.

(** A resolver that fails on one name. *)
Definition flaky_dns (name : string) : answer :=
  if String.eqb name "down.example" then Raised "timed out"
  else dns_of_zone [ ("up.example", ["v=spf1 mx include:down.example -all"]) ] name.

Definition flaky_text : string := "v=spf1 a include:up.example include:down.example -all".

(** The first part of a split. *)
Definition first_part (sep : ascii) (s : string) : string :=
  hd EmptyString (Py.split sep s).

(** A mapping whose names are lower-cased and trimmed and whose values
    are trimmed. *)
Definition trimmed_tags (tags : gmap string string) : Prop :=
  forall k v, tags !! k = Some v ->
    Py.lower k = k /\ Py.strip k = k /\ Py.strip v = v.

(** The test of the prober on one TXT string. *)
Definition holds_key (t : string) : bool :=
  Py.contains "v=DKIM1" t || Py.contains "p=" t.

(** The length of a key once its whitespace is removed. *)
Definition payload_length (pub : string) : nat := String.length (remove_spaces pub).

(** The candidates of a discovery. *)
Definition candidates (aggressive : bool) : list string :=
  if aggressive then AGGRESSIVE_DKIM_SELECTORS else DEFAULT_DKIM_SELECTORS.

(** A rule block that subtracts a fixed cost and appends fixed reasons,
    whatever verdict it starts from. *)
Definition uniform (f : verdict -> verdict) : Prop :=
  exists (cost : Z) (rs : list string),
    (0 <= cost <= 40 * Z.of_nat (length rs))%Z
    /\ forall v, f v = ((fst v - cost)%Z, app (snd v) rs).

(** What a value of the tag [p] costs. *)
Definition policy_cost (p : string) : Z :=
  if String.eqb (Py.lower p) "none" || String.eqb (Py.lower p) "" then 10
  else if String.eqb (Py.lower p) "quarantine" then 3 else 0.

(** The number of lookup mechanisms the parser lists over some details. *)
Fixpoint listed_mechanisms (details : list SPFDetail) : Z :=
  match details with
  | [] => 0
  | d :: details' =>
      Z.of_nat (length (lookup_mechanisms d)) + listed_mechanisms details'
  end.

(** A zone with an SPF record, a DMARC record and one DKIM selector. *)
Definition report_zone : list (string * list string) :=
  [ ("example.com", ["unrelated text"; "v=spf1 include:a.example mx -all"]);
    ("a.example", ["v=spf1 a ptr -all"]);
    ("_dmarc.example.com", ["v=DMARC1; p=quarantine; rua=mailto:x@y.com"]);
    ("mail._domainkey.example.com", ["v=DKIM1; k=rsa; p=MIGfMA0GCSqGSIb3"]) ].

(** * Properties *)

(** ** The SPF parser *)

(** C1, at the text of the claim's own example: the search for the [all]
    qualifier finds nothing in ["v=spf1 include:x.com ~all"], although the
    text ends in [~all]. The pattern asks for a word boundary in front of
    the qualifier sign; between a space and [~] there is none. *)
Theorem C1_all_mechanism_missed :
  all_mechanism (parse_spf "v=spf1 include:x.com ~all") = None.
Proof. vm_compute. reflexivity. Qed.

(** The same text, from the place of its qualifier on: no attempt of the
    pattern succeeds there, the character before it being a space. *)
Lemma all_qualifier_after_space :
  Re.match_at true SPF_ALL_RE (Some " "%char) "~all" = None.
Proof. vm_compute. reflexivity. Qed.

(** Glued to a word character, the same qualifier is found. *)
Lemma all_qualifier_after_word :
  all_mechanism (parse_spf "v=spf1 include:x.com mx~all") = Some "~all".
Proof. vm_compute. reflexivity. Qed.

(** Under [re.I] a literal matches the characters that lower-case as it
    does. *)
Lemma lit_eq_lower (c d : ascii) :
  Re.lit_eq true c d = true -> Py.lower_char d = Py.lower_char c.
Proof. unfold Re.lit_eq. intros H%Ascii.eqb_eq. congruence. Qed.

Lemma match_all_forms (p : option ascii) (s : string) (m : Re.rmatch) :
  Re.match_at true SPF_ALL_RE p s = Some m ->
  Py.lower (Re.group0 m) ∈ qualifiers.
Proof.
  unfold Re.match_at.
  destruct s as [|c1 [|c2 [|c3 [|c4 s]]]];
    cbn -[Re.lit_eq Re.at_boundary];
    repeat match goal with
           | |- context [if ?b then _ else _] => destruct b eqn:?
           end; try discriminate.
  all: intros [= <-]; cbn [Re.group0 Re.pos substring].
  all: replace (substring 0 0 s) with "" by (destruct s; reflexivity).
  all: cbn [Py.lower].
  all: repeat match goal with
         | H : Re.lit_eq true _ _ = true |- _ =>
             apply lit_eq_lower in H; rewrite H; clear H
         end.
  all: unfold qualifiers; set_solver.
Qed.

(** What a search returns is what an attempt at some position returns. *)
Lemma search_from_at (r : Re.regex) (s : string) :
  forall (p : option ascii) (m : Re.rmatch),
    Re.search_from true r p s = Some m ->
    exists p' s', Re.match_at true r p' s' = Some m.
Proof.
  induction s as [|c s IH]; intros p m; cbn [Re.search_from];
    destruct (Re.match_at true r p _) eqn:Hm; try discriminate.
  - intros [= <-]. eauto.
  - intros [= <-]. eauto.
  - apply IH.
Qed.

(** For every text, the value found is absent or is one of the four forms
    up to case. *)
Lemma all_mechanism_is_a_qualifier (spf_text : string) :
  all_mechanism (parse_spf spf_text) = None
  \/ exists q, all_mechanism (parse_spf spf_text) = Some q
               /\ Py.lower q ∈ qualifiers.
Proof.
  unfold parse_spf. cbn [all_mechanism]. unfold Re.search.
  destruct (Re.search_from true SPF_ALL_RE None spf_text) as [m|] eqn:Hs.
  - right. exists (Re.group0 m). split; [reflexivity|].
    destruct (search_from_at _ _ _ _ Hs) as (p' & s' & Hm).
    apply (match_all_forms p' s' m Hm).
  - left. reflexivity.
Qed.

(** C7: for ["v=spf1 include:a.com a mx ~all"] the lookup mechanisms are
    exactly [include:a.com], [a], [mx], three of them, in this order; the
    [a] of [a.com] and the [a] of [~all] are not among them. *)
Theorem C7_lookup_mechanisms_example :
  lookup_mechanisms (parse_spf "v=spf1 include:a.com a mx ~all")
    = ["include:a.com"; "a"; "mx"]
  /\ length (lookup_mechanisms (parse_spf "v=spf1 include:a.com a mx ~all")) = 3%nat.
Proof. split; vm_compute; reflexivity. Qed.

(** ** The DMARC parser *)

(** C2 as stated fails: the mapping parsed from the example also holds the
    version tag [v], which the three-entry mapping of the claim lacks. *)
Lemma C2_version_tag_is_kept :
  parse_dmarc dmarc_example
    <> <["p" := "reject"]> (<["pct" := "50"]> (<["rua" := "mailto:x@y.com"]> ∅)).
Proof.
  intros H.
  assert (Hv : parse_dmarc dmarc_example !! "v" = Some "DMARC1")
    by (vm_compute; reflexivity).
  rewrite H in Hv. vm_compute in Hv. discriminate Hv.
Qed.

(** C2, amended: parsing the example gives exactly the four tags [v], [p],
    [pct] and [rua], each name lower-cased and each value trimmed. *)
Theorem C2_parse_dmarc_example :
  parse_dmarc dmarc_example
    = <["v" := "DMARC1"]> (<["p" := "reject"]> (<["pct" := "50"]>
        (<["rua" := "mailto:x@y.com"]> ∅))).
Proof. vm_compute. reflexivity. Qed.

(** For every text, the names of the parsed tags are lower-cased and their
    values are trimmed. *)
Lemma lower_char_idem (c : ascii) :
  Py.lower_char (Py.lower_char c) = Py.lower_char c.
Proof. destruct c as [[] [] [] [] [] [] [] []]; reflexivity. Qed.

Lemma lower_idem (s : string) : Py.lower (Py.lower s) = Py.lower s.
Proof.
  induction s as [|c s IH]; simpl; [reflexivity|].
  rewrite lower_char_idem, IH. reflexivity.
Qed.

Lemma rstrip_by_idem (p : ascii -> bool) (s : string) :
  Py.rstrip_by p (Py.rstrip_by p s) = Py.rstrip_by p s.
Proof.
  induction s as [|c s IH]; [reflexivity|]. cbn [Py.rstrip_by].
  destruct (Py.rstrip_by p s) as [|d r] eqn:Hr.
  - destruct (p c) eqn:Hc; [reflexivity|]. cbn [Py.rstrip_by]. rewrite Hc. reflexivity.
  - cbn [Py.rstrip_by] in *. rewrite IH. reflexivity.
Qed.

Lemma lstrip_by_clean (p : ascii -> bool) (s : string) :
  clean_start p (Py.lstrip_by p s).
Proof.
  induction s as [|c s IH]; simpl; [exact I|].
  destruct (p c) eqn:Hc; [exact IH|exact Hc].
Qed.

Lemma lstrip_by_fixed (p : ascii -> bool) (s : string) :
  clean_start p s -> Py.lstrip_by p s = s.
Proof. destruct s as [|c s]; simpl; [reflexivity|]. intros ->. reflexivity. Qed.

Lemma rstrip_by_clean (p : ascii -> bool) (s : string) :
  clean_start p s -> clean_start p (Py.rstrip_by p s).
Proof.
  destruct s as [|c s]; simpl; [trivial|]. intros Hc.
  destruct (Py.rstrip_by p s); [rewrite Hc|]; exact Hc.
Qed.

Lemma strip_idem (s : string) : Py.strip (Py.strip s) = Py.strip s.
Proof.
  unfold Py.strip.
  rewrite (lstrip_by_fixed _ (Py.rstrip_by _ _)).
  - apply rstrip_by_idem.
  - apply rstrip_by_clean, lstrip_by_clean.
Qed.

Lemma dmarc_part_normal (tags : gmap string string) (p : string) :
  normal_tags tags -> normal_tags (dmarc_part tags p).
Proof.
  intros Htags. unfold dmarc_part.
  destruct (Py.contains "=" p); [|exact Htags].
  destruct (Py.split_once "=" p) as [k v]. intros k' v'.
  destruct (decide (Py.lower (Py.strip k) = k')) as [<-|Hne].
  - rewrite lookup_insert_eq. intros [= <-].
    split; [apply lower_idem|apply strip_idem].
  - rewrite lookup_insert_ne by exact Hne. apply Htags.
Qed.

Lemma parse_dmarc_normal (dmarc_text : string) :
  normal_tags (parse_dmarc dmarc_text).
Proof.
  unfold parse_dmarc.
  assert (H : forall parts tags,
             normal_tags tags -> normal_tags (fold_left dmarc_part parts tags)).
  { induction parts as [|p parts IH]; intros tags Htags; simpl; [exact Htags|].
    apply IH, dmarc_part_normal, Htags. }
  apply H. intros k v Hk. rewrite lookup_empty in Hk. discriminate Hk.
Qed.

(** ** The scoring engine *)

(** C3: without SPF records, without DMARC text and without discovered DKIM
    selectors the score is 20 and the reasons are the three reasons of
    absence, SPF first, DMARC second, DKIM third, whatever the other
    arguments are. An absent DMARC text is [None], or the empty string,
    which the program treats alike. *)
Theorem C3_nothing_published
    (spf_details : list SPFDetail) (spf_lookup_count : Z)
    (spf_errors : list string) (dmarc_tags : gmap string string) :
  let expected :=
    {| score := 20;
       reasons :=
         [ "No SPF record found (high risk of spoofing).";
           "No DMARC record found (no domain-wide policy for unauthenticated mail).";
           "No DKIM selectors found using heuristics (may not use DKIM)." ] |} in
  (100 - 40 - 30 - 10 = 20)%Z
  /\ score_and_conclusions [] spf_details spf_lookup_count spf_errors
       None dmarc_tags [] = expected
  /\ score_and_conclusions [] spf_details spf_lookup_count spf_errors
       (Some "") dmarc_tags [] = expected.
Proof. repeat split. Qed.

(** Every rule subtracts: no block raises the score. *)
Lemma deduct_le (n : Z) (r : string) (v : verdict) :
  (0 <= n)%Z -> (fst (deduct n r v) <= fst v)%Z.
Proof. unfold deduct. simpl. lia. Qed.

Lemma note_le (r : string) (v : verdict) : (fst (note r v) <= fst v)%Z.
Proof. reflexivity. Qed.

Lemma score_spf_detail_le (v : verdict) (d : SPFDetail) :
  (fst (score_spf_detail v d) <= fst v)%Z.
Proof.
  unfold score_spf_detail.
  destruct (all_mechanism d) as [[|c s]|]; try (apply deduct_le; lia).
  repeat match goal with
         | |- context [if ?b then _ else _] => destruct b
         end; try (apply deduct_le; lia); try apply note_le; lia.
Qed.

Lemma fold_left_le {A : Type} (f : verdict -> A -> verdict) (l : list A) :
  (forall v x, (fst (f v x) <= fst v)%Z) ->
  forall v, (fst (fold_left f l v) <= fst v)%Z.
Proof.
  intros Hf. induction l as [|x l IH]; intros v; simpl; [lia|].
  specialize (IH (f v x)). specialize (Hf v x). lia.
Qed.

Lemma score_spf_lookups_le (n : Z) (v : verdict) :
  (fst (score_spf_lookups n v) <= fst v)%Z.
Proof.
  unfold score_spf_lookups.
  destruct (n >? SPF_DNS_LOOKUP_LIMIT)%Z; [apply deduct_le; lia|].
  destruct (n >? SPF_DNS_LOOKUP_LIMIT - 3)%Z; [apply deduct_le; lia|lia].
Qed.

Lemma score_spf_records_le (rs : list string) (ds : list SPFDetail) (v : verdict) :
  (fst (score_spf_records rs ds v) <= fst v)%Z.
Proof.
  unfold score_spf_records.
  etransitivity; [apply fold_left_le, score_spf_detail_le|].
  destruct (Z.of_nat (length rs) >? 1)%Z; [apply deduct_le; lia|lia].
Qed.

Lemma score_spf_le (rs : list string) (ds : list SPFDetail) (n : Z) (v : verdict) :
  (fst (score_spf rs ds n v) <= fst v)%Z.
Proof.
  unfold score_spf. destruct rs; [apply deduct_le; lia|].
  etransitivity; [apply score_spf_lookups_le|apply score_spf_records_le].
Qed.

Lemma score_dmarc_le (t : option string) (tags : gmap string string) (v : verdict) :
  (fst (score_dmarc t tags v) <= fst v)%Z.
Proof.
  unfold score_dmarc.
  destruct (absent t); [apply deduct_le; lia|].
  set (v1 := if (_ || _) then _ else _).
  assert (H1 : (fst v1 <= fst v)%Z).
  { subst v1.
    repeat match goal with
           | |- context [if ?b then _ else _] => destruct b
           end; try (apply deduct_le; lia); try apply note_le; lia. }
  set (v2 := if (_ <? 100)%Z then _ else _).
  assert (H2 : (fst v2 <= fst v1)%Z).
  { subst v2. destruct (_ <? 100)%Z; [apply deduct_le; lia|lia]. }
  destruct (tags !! "rua").
  - lia.
  - etransitivity; [apply deduct_le; lia|lia].
Qed.

Lemma score_dkim_info_le (v : verdict) (k : DKIMInfo) :
  (fst (score_dkim_info v k) <= fst v)%Z.
Proof.
  unfold score_dkim_info.
  destruct (key_bits_approx k) as [bits|]; [|lia].
  repeat match goal with
         | |- context [if ?b then _ else _] => destruct b
         end; try (apply deduct_le; lia); try apply note_le; lia.
Qed.

Lemma score_dkim_le (ks : list DKIMInfo) (v : verdict) :
  (fst (score_dkim ks v) <= fst v)%Z.
Proof.
  unfold score_dkim. destruct ks; [apply deduct_le; lia|].
  apply fold_left_le, score_dkim_info_le.
Qed.

(** C10: the score before the clamps never exceeds 100, so the test
    [score > 100] of the upper clamp is never true, and the returned score
    lies between 0 and 100. *)
Theorem C10_score_never_above_start
    (spf_records : list string) (spf_details : list SPFDetail)
    (spf_lookup_count : Z) (spf_errors : list string)
    (dmarc_text : option string) (dmarc_tags : gmap string string)
    (dkim_infos : list DKIMInfo) :
  let v := score_rules spf_records spf_details spf_lookup_count spf_errors
             dmarc_text dmarc_tags dkim_infos in
  let c := score_and_conclusions spf_records spf_details spf_lookup_count
             spf_errors dmarc_text dmarc_tags dkim_infos in
  (fst v <= 100)%Z
  /\ (clamp_low (fst v) >? 100)%Z = false
  /\ score c = clamp_low (fst v)
  /\ (0 <= score c <= 100)%Z.
Proof.
  intros v c.
  assert (Hv : (fst v <= 100)%Z).
  { subst v. unfold score_rules.
    etransitivity; [apply score_dkim_le|].
    etransitivity; [apply score_dmarc_le|].
    etransitivity; [apply score_spf_le|]. simpl. lia. }
  assert (Hl : (0 <= clamp_low (fst v) <= 100)%Z).
  { unfold clamp_low. destruct (Z.ltb_spec (fst v) 0); lia. }
  assert (Hh : (clamp_low (fst v) >? 100)%Z = false).
  { rewrite Z.gtb_ltb. apply Z.ltb_ge. lia. }
  subst c. unfold score_and_conclusions. cbn [score].
  fold v. unfold clamp_high. rewrite Hh. auto.
Qed.

(** C6 as stated fails at a count of 7: 7 is within 3 of the limit of 10,
    yet the rule deducts nothing and gives no reason, its test being
    [spf_lookup_count > 10 - 3]. *)
Lemma C6_count_seven_is_free :
  (10 - 3 <= 7 <= 10)%Z
  /\ score_spf ["v=spf1 mx -all"] [] 7 (100%Z, []) = (100%Z, [])
  /\ score_spf ["v=spf1 mx -all"] [] 7 (100%Z, [])
       <> deduct 7 (near_limit_reason 7) (100%Z, []).
Proof. split; [lia|]. split; [reflexivity|discriminate]. Qed.

(** C6, amended: when SPF records exist, a lookup count above 10 costs 20
    points with a reason that spells out the count and the limit; a count
    of 8, 9 or 10 costs 7 points with the close-to-limit reason; a count of
    7 or less costs nothing and gives no reason. The deduction is relative
    to the verdict reached just before the rule. *)
Theorem C6_lookup_count_rule
    (spf_records : list string) (spf_details : list SPFDetail)
    (n : Z) (v : verdict) :
  spf_records <> [] ->
  let before := score_spf_records spf_records spf_details v in
  let after := score_spf spf_records spf_details n v in
  ((10 < n)%Z ->
     after = ((fst before - 20)%Z,
              app (snd before)
                 ["SPF mechanisms likely cause " ++ Py.str_of_int n
                  ++ " DNS lookups (> 10). This can break SPF enforcement."]))
  /\ ((8 <= n <= 10)%Z ->
     after = ((fst before - 7)%Z,
              app (snd before)
                 ["SPF mechanisms cause " ++ Py.str_of_int n
                  ++ " DNS lookups (close to limit)."]))
  /\ ((n <= 7)%Z -> after = before).
Proof.
  intros Hne before after. subst before after.
  destruct spf_records as [|r rs]; [congruence|].
  unfold score_spf, score_spf_lookups, SPF_DNS_LOOKUP_LIMIT.
  repeat split; intros Hn.
  - destruct (Z.gtb_spec n 10); [reflexivity|lia].
  - destruct (Z.gtb_spec n 10); [lia|].
    destruct (Z.gtb_spec n (10 - 3)); [reflexivity|lia].
  - destruct (Z.gtb_spec n 10); [lia|].
    destruct (Z.gtb_spec n (10 - 3)); [lia|reflexivity].
Qed.

Lemma C6_lookup_count_rule_witness :
  score_spf ["v=spf1 mx -all"] [] 11 (100%Z, [])
    = (80%Z, ["SPF mechanisms likely cause 11 DNS lookups (> 10). This can break SPF enforcement."])
  /\ score_spf ["v=spf1 mx -all"] [] 8 (100%Z, [])
    = (93%Z, ["SPF mechanisms cause 8 DNS lookups (close to limit)."]).
Proof.
  destruct (C6_lookup_count_rule ["v=spf1 mx -all"] [] 11 (100%Z, []))
    as [Hover _]; [discriminate|].
  destruct (C6_lookup_count_rule ["v=spf1 mx -all"] [] 8 (100%Z, []))
    as (_ & Hnear & _); [discriminate|].
  split; [apply Hover; lia|apply Hnear; lia].
Defined.

(** ** The DKIM selector prober *)

Lemma run_length_le (p : ascii -> bool) (s : string) :
  (run_length p s <= String.length s)%nat.
Proof. induction s as [|c s IH]; simpl; [lia|]. destruct (p c); lia. Qed.

Lemma length_substring_0 (n : nat) (s : string) :
  (n <= String.length s)%nat -> String.length (substring 0 n s) = n.
Proof.
  revert n. induction s as [|c s IH]; intros [|n] Hn; simpl in *; try lia.
  rewrite IH; lia.
Qed.

(** A greedy [+] with nothing after it takes the whole run. *)
Lemma plus_set_greedy (p : ascii -> bool) (s : string) (n : nat)
    (g : option (nat * nat)) :
  match run_length p s with
  | O => Re.plus_set p s n g Some = None
  | S m => exists cu, Re.plus_set p s n g Some = Some cu
                      /\ Re.pos cu = (n + S m)%nat /\ Re.grp cu = g
  end.
Proof.
  revert n. induction s as [|c s IH]; intros n; simpl; [reflexivity|].
  destruct (p c); [|reflexivity].
  specialize (IH (S n)). destruct (run_length p s) as [|m].
  - rewrite IH. eexists. split; [reflexivity|]. simpl. split; [lia|reflexivity].
  - destruct IH as (cu & -> & Hpos & Hgrp). exists cu. repeat split; [lia|assumption].
Qed.

Lemma match_spaces (pc : option ascii) (s : string) :
  match run_length Py.is_space s with
  | O => Re.match_at false SPACES_RE pc s = None
  | S m => exists mt, Re.match_at false SPACES_RE pc s = Some mt
                      /\ Re.length0 mt = S m
  end.
Proof.
  unfold Re.match_at, SPACES_RE. cbn [Re.run Re.rest Re.pos Re.grp].
  pose proof (plus_set_greedy Py.is_space s 0 None) as H.
  pose proof (run_length_le Py.is_space s) as Hle.
  destruct (run_length Py.is_space s) as [|m].
  - rewrite H. reflexivity.
  - destruct H as (cu & -> & Hpos & Hgrp). eexists. split; [reflexivity|].
    unfold Re.length0. cbn [Re.group0]. rewrite Hpos.
    apply length_substring_0. lia.
Qed.

Lemma sub_from_spaces (s : string) :
  forall (pc : option ascii) (skip : nat),
    (skip <= run_length Py.is_space s)%nat ->
    Re.sub_from false SPACES_RE "" pc s skip = remove_spaces s.
Proof.
  induction s as [|c s IH]; intros pc skip Hskip.
  - simpl in Hskip. assert (skip = O) as -> by lia. reflexivity.
  - destruct skip as [|n].
    + cbn [Re.sub_from]. pose proof (match_spaces pc (String c s)) as H.
      cbn [run_length remove_spaces] in *.
      destruct (Py.is_space c).
      * destruct H as (mt & -> & ->). simpl. apply IH. lia.
      * rewrite H. f_equal. apply IH. lia.
    + cbn [Re.sub_from run_length remove_spaces] in *.
      destruct (Py.is_space c); [|lia]. apply IH. lia.
Qed.

(** [re.sub(r"\s+", "", s)] removes exactly the whitespace characters. *)
Lemma sub_spaces (s : string) : Re.sub false SPACES_RE "" s = remove_spaces s.
Proof. unfold Re.sub. apply sub_from_spaces. lia. Qed.

Lemma truthy_spec (s : string) : Py.truthy s = true <-> s <> "".
Proof. destruct s; simpl; split; congruence. Qed.

Lemma has_pub_spec (pub : string) :
  Py.truthy pub && negb (String.eqb pub "-") = true <-> pub <> "" /\ pub <> "-".
Proof.
  rewrite andb_true_iff, negb_true_iff, truthy_spec.
  destruct (String.eqb_spec pub "-"); intuition congruence.
Qed.

(** C8: in every result of the prober, [has_pub] holds exactly when a [p=]
    value was extracted and it is neither empty nor ["-"]; then the
    estimate is 6 times the length of that value without its whitespace;
    and a value of 256 characters without its whitespace gives 1536. *)
Theorem C8_dkim_public_key
    (dns_query_txt : string -> answer) (domain sel : string) (info : DKIMInfo) :
  check_dkim_selector dns_query_txt domain sel = Returns info ->
  (has_pub info = true <->
     exists pub, extracted_p info = Some pub /\ pub <> "" /\ pub <> "-")
  /\ (forall pub, extracted_p info = Some pub -> has_pub info = true ->
        key_bits_approx info
          = Some (6 * Z.of_nat (String.length (remove_spaces pub)))%Z)
  /\ (forall pub, extracted_p info = Some pub ->
        String.length (remove_spaces pub) = 256%nat ->
        has_pub info = true /\ key_bits_approx info = Some 1536%Z).
Proof.
  unfold check_dkim_selector.
  destruct (dns_query_txt _) as [txts|e]; [|discriminate].
  intros [= <-]. unfold dkim_info, extracted_p.
  destruct txts as [|t0 txts]; cbn [has_pub key_bits_approx dkim_raw mbind option_bind].
  - split; [|split]; try discriminate.
    split; [discriminate|]. intros (pub & H & _). discriminate H.
  - set (txt := choose_dkim_txt t0 (t0 :: txts)).
    destruct (stripped_group1 DKIM_P_RE txt) as [pub|].
    + assert (Hbits : Py.truthy pub && negb (String.eqb pub "-") = true ->
                (if Py.truthy pub && negb (String.eqb pub "-")
                 then Some (Z.of_nat (String.length (Re.sub false SPACES_RE "" pub)) * 6)%Z
                 else None)
                = Some (6 * Z.of_nat (String.length (remove_spaces pub)))%Z).
      { intros ->. rewrite sub_spaces. f_equal. lia. }
      split; [|split].
      * rewrite has_pub_spec. split.
        -- intros H. exists pub. tauto.
        -- intros (pub' & [= <-] & H). exact H.
      * intros pub' [= <-] H. apply Hbits, H.
      * intros pub' [= <-] Hlen.
        assert (H : Py.truthy pub && negb (String.eqb pub "-") = true).
        { apply has_pub_spec. split; intros ->; simpl in Hlen; discriminate Hlen. }
        split; [exact H|]. rewrite (Hbits H), Hlen. reflexivity.
    + split; [|split]; try discriminate.
      split; [discriminate|]. intros (pub & H & _). discriminate H.
Qed.

Lemma C8_dkim_public_key_witness :
  has_pub (dkim_info "s1" "s1._domainkey.example.com"
             (zone_lookup dkim_zone "s1._domainkey.example.com")) = true
  /\ key_bits_approx (dkim_info "s1" "s1._domainkey.example.com"
                        (zone_lookup dkim_zone "s1._domainkey.example.com"))
     = Some 1536%Z.
Proof.
  refine (proj2 (proj2 (C8_dkim_public_key (dns_of_zone dkim_zone) "example.com" "s1"
            _ eq_refl))
          (copies 16 "MIGfMA0G" ++ " " ++ copies 16 "CSqGSIb3") _ _).
  - vm_compute. reflexivity.
  - vm_compute. reflexivity.
Defined.

(** ** The SPF lookup resolver *)

Section ForEach.
Context {A : Type}.

(** A property of the walk that every turn of a loop keeps is kept by the
    loop. *)
Lemma for_each_inv (P : walk -> Prop) (l : list A)
    (body : A -> walk -> option walk) :
  (forall x v v', x ∈ l -> P v -> body x v = Some v' -> P v') ->
  forall w w', P w -> for_each l body w = Some w' -> P w'.
Proof.
  induction l as [|x l IH]; intros Hbody w w' Hw Hrun; simpl in Hrun.
  - congruence.
  - destruct (body x w) as [v|] eqn:Hx; [|discriminate].
    apply (IH (fun y v1 v2 Hy => Hbody y v1 v2 (list_elem_of_further _ _ _ Hy)) v).
    + apply (Hbody x w v); [left|assumption|assumption].
    + assumption.
Qed.

(** A loop whose turns all finish, finishes. *)
Lemma for_each_some (l : list A) (body : A -> walk -> option walk) :
  (forall x v, x ∈ l -> is_Some (body x v)) ->
  forall w, is_Some (for_each l body w).
Proof.
  induction l as [|x l IH]; intros Hbody w; simpl; [eauto|].
  destruct (Hbody x w) as [v ->]; [left|].
  apply IH. intros y v' Hy. apply Hbody. right. exact Hy.
Qed.

(** A body that finishes wherever another one does, with the same walk,
    finishes the loop likewise. *)
Lemma for_each_mono (l : list A) (body1 body2 : A -> walk -> option walk) :
  (forall x v v', x ∈ l -> body1 x v = Some v' -> body2 x v = Some v') ->
  forall w w', for_each l body1 w = Some w' -> for_each l body2 w = Some w'.
Proof.
  induction l as [|x l IH]; intros Hbody w w' Hrun; simpl in *; [assumption|].
  destruct (body1 x w) as [v|] eqn:Hx; [|discriminate].
  rewrite (Hbody x w v) by (left || assumption).
  apply IH; [|assumption]. intros y v1 v2 Hy. apply Hbody. right. exact Hy.
Qed.
End ForEach.

Section Termination.
Variable dns_query_txt : string -> answer.
Variable max_recursion : Z.

(** With the fuel of [enough], [_recurse] never runs out. *)
Lemma recurse_total (fuel : nat) :
  forall (name txt : string) (depth : Z) (w : walk),
    (enough max_recursion depth <= fuel)%nat ->
    is_Some (_recurse dns_query_txt max_recursion fuel name txt depth w).
Proof.
  induction fuel as [|fuel IH]; intros name txt depth w Hfuel.
  - unfold enough in Hfuel. lia.
  - cbn [_recurse]. destruct (Z.gtb_spec depth max_recursion) as [Hd|Hd]; [eauto|].
    apply for_each_some. intros inc v _.
    destruct (decide (inc ∈ visited v)); [eauto|].
    destruct (dns_query_txt inc) as [txts|e]; [|eauto].
    apply for_each_some. intros s v' _. apply IH.
    unfold enough in *. lia.
Qed.

(** More fuel does not change a result. *)
Lemma recurse_mono (fuel : nat) :
  forall (fuel' : nat) (name txt : string) (depth : Z) (w w' : walk),
    (fuel <= fuel')%nat ->
    _recurse dns_query_txt max_recursion fuel name txt depth w = Some w' ->
    _recurse dns_query_txt max_recursion fuel' name txt depth w = Some w'.
Proof.
  induction fuel as [|fuel IH]; intros fuel' name txt depth w w' Hle Hrun.
  - discriminate Hrun.
  - destruct fuel' as [|fuel']; [lia|]. cbn [_recurse] in *.
    destruct (depth >? max_recursion)%Z; [assumption|].
    revert Hrun. apply for_each_mono. intros inc v v' _.
    destruct (decide (inc ∈ visited v)); [trivial|].
    destruct (dns_query_txt inc) as [txts|e]; [|trivial].
    apply for_each_mono. intros s v1 v2 _. apply IH. lia.
Qed.

(** Beyond the depth limit a call only records itself and the error. *)
Lemma recurse_cut (fuel : nat) (name txt : string) (depth : Z) (w : walk) :
  (depth > max_recursion)%Z ->
  _recurse dns_query_txt max_recursion (S fuel) name txt depth w
    = Some (add_error (depth_error name) (log (Enter name depth) w)).
Proof.
  intros Hd. cbn [_recurse].
  destruct (Z.gtb_spec depth max_recursion); [reflexivity|lia].
Qed.
End Termination.

Lemma queries_log_enter (n : string) (d : Z) (w : walk) :
  queries (log (Enter n d) w) = queries w.
Proof. unfold queries, log. cbn [trace]. rewrite omap_app. simpl. apply app_nil_r. Qed.

Lemma queries_log_query (n : string) (w : walk) :
  queries (log (Query n) w) = (queries w ++ [n])%list.
Proof. unfold queries, log. cbn [trace]. rewrite omap_app. reflexivity. Qed.

Lemma entered_log_enter (n : string) (d : Z) (w : walk) :
  entered (log (Enter n d) w) = (entered w ++ [(n, d)])%list.
Proof. unfold entered, log. cbn [trace]. rewrite omap_app. reflexivity. Qed.

Lemma entered_log_query (n : string) (w : walk) :
  entered (log (Query n) w) = entered w.
Proof. unfold entered, log. cbn [trace]. rewrite omap_app. simpl. apply app_nil_r. Qed.

Lemma queries_add_error (e : string) (w : walk) : queries (add_error e w) = queries w.
Proof. reflexivity. Qed.

Lemma queries_add_lookups (n : Z) (w : walk) : queries (add_lookups n w) = queries w.
Proof. reflexivity. Qed.

Lemma queries_add_visited (x : string) (w : walk) : queries (add_visited x w) = queries w.
Proof. reflexivity. Qed.

Lemma queries_add_resolved (x : string) (w : walk) : queries (add_resolved x w) = queries w.
Proof. reflexivity. Qed.

(** Pushing [queries] through the updates of the walk. *)
Ltac walk_log :=
  repeat first
    [ rewrite queries_log_enter | rewrite queries_log_query
    | rewrite queries_add_error | rewrite queries_add_lookups
    | rewrite queries_add_visited | rewrite queries_add_resolved ].

(** C4: the walk ends on every input: some walk is the result for the fuel
    of [resolve_spf_lookups] and for any larger fuel. Beyond the depth
    limit a call adds the error naming its domain and nothing else: no
    lookup is counted and nothing is queried. On a chain of eleven nested
    includes [d0 -> d1 -> ... -> d11] with the limit 10, the walk is cut at
    [d11]: one depth error naming [d11], and the three mechanisms of the
    record of [d11] are not among the 11 lookups counted. *)
Theorem C4_walk_ends_and_depth_guard :
  (forall (dns_query_txt : string -> answer) (max_recursion : Z)
          (domain spf_text : string),
      exists w,
        resolve_walk dns_query_txt max_recursion domain spf_text = Some w
        /\ resolve_spf_lookups dns_query_txt max_recursion domain spf_text
             = Some (resolved w, lookup_count w, errors w)
        /\ forall fuel, (enough max_recursion 0 <= fuel)%nat ->
             _recurse dns_query_txt max_recursion fuel domain spf_text 0 walk0
               = Some w)
  /\ (forall (dns_query_txt : string -> answer) (max_recursion : Z)
             (fuel : nat) (name txt : string) (depth : Z) (w : walk),
        (depth > max_recursion)%Z ->
        exists w',
          _recurse dns_query_txt max_recursion (S fuel) name txt depth w = Some w'
          /\ errors w' = app (errors w) ["spf include recursion depth exceeded at " ++ name]
          /\ lookup_count w' = lookup_count w
          /\ queries w' = queries w
          /\ resolved w' = resolved w)
  /\ resolve_spf_lookups (dns_of_zone chain_zone) MAX_INCLUDE_RECURSION
       "d0" chain_text
       = Some (list_to_set chain_names, 11%Z,
               ["spf include recursion depth exceeded at d11"])
  /\ (queries <$> resolve_walk (dns_of_zone chain_zone) MAX_INCLUDE_RECURSION
                    "d0" chain_text)
       = Some chain_names.
Proof.
  split; [|split; [|split]].
  - intros dns mx domain txt.
    destruct (recurse_total dns mx (enough mx 0) domain txt 0 walk0) as [w Hw]; [lia|].
    exists w. unfold resolve_spf_lookups, resolve_walk. rewrite Hw.
    split; [reflexivity|]. split; [reflexivity|].
    intros fuel Hfuel. apply (recurse_mono dns mx (enough mx 0)); assumption.
  - intros dns mx fuel name txt depth w Hd. eexists.
    split; [apply recurse_cut; assumption|].
    cbn [errors lookup_count resolved add_error log].
    repeat split. apply queries_log_enter.
  - vm_compute. reflexivity.
  - vm_compute. reflexivity.
Qed.

Lemma C4_walk_ends_and_depth_guard_witness :
  exists w',
    _recurse (dns_of_zone chain_zone) 10 1 "d11" "v=spf1 mx a include:d0 -all" 11 walk0
      = Some w'
    /\ errors w' = ["spf include recursion depth exceeded at d11"]
    /\ lookup_count w' = 0%Z
    /\ queries w' = []
    /\ resolved w' = ∅.
Proof.
  apply (proj1 (proj2 C4_walk_ends_and_depth_guard)
           (dns_of_zone chain_zone) 10%Z 0%nat "d11"
           "v=spf1 mx a include:d0 -all" 11%Z walk0).
  lia.
Defined.

(** *** Each target is queried once *)

Lemma queried_once_query (inc : string) (w : walk) :
  queried_once w -> inc ∉ visited w ->
  queried_once (log (Query inc) (add_visited inc w)).
Proof.
  intros [Hnd Hin] Hnew. unfold queried_once.
  walk_log. cbn [visited log add_visited]. split.
  - apply NoDup_app. split; [assumption|]. split; [|apply NoDup_singleton].
    intros n Hn ->%list_elem_of_singleton. apply Hnew, Hin, Hn.
  - intros n [Hn| ->%list_elem_of_singleton]%elem_of_app.
    + apply elem_of_union_r, Hin, Hn.
    + apply elem_of_union_l, elem_of_singleton. reflexivity.
Qed.

Section Once.
Variable dns_query_txt : string -> answer.
Variable max_recursion : Z.

Lemma recurse_queried_once (fuel : nat) :
  forall (name txt : string) (depth : Z) (w w' : walk),
    queried_once w ->
    _recurse dns_query_txt max_recursion fuel name txt depth w = Some w' ->
    queried_once w'.
Proof.
  induction fuel as [|fuel IH]; intros name txt depth w w' Hw Hrun.
  - discriminate Hrun.
  - cbn [_recurse] in Hrun.
    assert (Hent : queried_once (log (Enter name depth) w)).
    { destruct Hw as [Hnd Hin]. unfold queried_once.
      rewrite queries_log_enter. split; assumption. }
    destruct (depth >? max_recursion)%Z.
    + injection Hrun as <-. exact Hent.
    + revert Hrun. apply for_each_inv; [|exact Hent].
      intros inc v v' _ Hv.
      destruct (decide (inc ∈ visited v)) as [|Hnew]; [intros [= <-]; exact Hv|].
      pose proof (queried_once_query inc v Hv Hnew) as Hq.
      destruct (dns_query_txt inc) as [txts|e].
      * apply for_each_inv; [|exact Hq].
        intros s v1 v2 _. apply IH.
      * intros [= <-]. exact Hq.
Qed.
End Once.

(** *** The result depends on the answers to the queried names only *)

Section Replay.
Variable dns1 dns2 : string -> answer.
Variable max_recursion : Z.

(** The log of queries only grows. *)
Lemma recurse_queries_grow (fuel : nat) :
  forall (name txt : string) (depth : Z) (w w' : walk),
    _recurse dns1 max_recursion fuel name txt depth w = Some w' ->
    queries w ⊆ queries w'.
Proof.
  induction fuel as [|fuel IH]; intros name txt depth w w' Hrun.
  - discriminate Hrun.
  - cbn [_recurse] in Hrun.
    destruct (depth >? max_recursion)%Z.
    + injection Hrun as <-. walk_log. intros x Hx. exact Hx.
    + revert Hrun.
      apply (for_each_inv (fun v => queries w ⊆ queries v)).
      * intros inc v v' _ Hv.
        destruct (decide (inc ∈ visited v)); [intros [= <-]; exact Hv|].
        assert (Hq : queries w ⊆ queries (log (Query inc) (add_visited inc v))).
        { walk_log.
          intros x Hx. apply elem_of_app. left. apply Hv, Hx. }
        destruct (dns1 inc) as [txts|e].
        -- apply (for_each_inv (fun v0 => queries w ⊆ queries v0)); [|exact Hq].
           intros s v1 v2 _ Hv1 Hs. etransitivity; [exact Hv1|].
           apply (IH _ _ _ _ _ Hs).
        -- intros [= <-]. exact Hq.
      * walk_log. intros x Hx. exact Hx.
Qed.

Lemma for_each_queries_grow {A : Type} (l : list A)
    (body : A -> walk -> option walk) :
  (forall x v v', body x v = Some v' -> queries v ⊆ queries v') ->
  forall w w', for_each l body w = Some w' -> queries w ⊆ queries w'.
Proof.
  intros Hbody w w'.
  apply (for_each_inv (fun v => queries w ⊆ queries v)); [|intros x Hx; exact Hx].
  intros x v v' _ Hv Hx. etransitivity; [exact Hv|]. apply (Hbody _ _ _ Hx).
Qed.

(** A loop replayed against other answers, equal on the names the first
    run queried, gives the same walk. *)
Lemma for_each_replay {A : Type} (l : list A)
    (body1 body2 : A -> walk -> option walk) :
  (forall x v v', body1 x v = Some v' -> queries v ⊆ queries v') ->
  (forall x v v', x ∈ l -> body1 x v = Some v' -> same_answers dns1 dns2 v' ->
                  body2 x v = Some v') ->
  forall w w', for_each l body1 w = Some w' -> same_answers dns1 dns2 w' ->
               for_each l body2 w = Some w'.
Proof.
  intros Hgrow. induction l as [|x l IH]; intros Hbody w w' Hrun Hsame.
  - exact Hrun.
  - simpl in *. destruct (body1 x w) as [v|] eqn:Hx; [|discriminate].
    rewrite (Hbody x w v); [| left | exact Hx |].
    + apply IH; [|assumption|assumption].
      intros y v1 v2 Hy. apply Hbody. right. exact Hy.
    + intros n Hn. apply Hsame.
      apply (for_each_queries_grow l body1 Hgrow v w' Hrun), Hn.
Qed.

Lemma recurse_replay (fuel : nat) :
  forall (name txt : string) (depth : Z) (w w' : walk),
    _recurse dns1 max_recursion fuel name txt depth w = Some w' ->
    same_answers dns1 dns2 w' ->
    _recurse dns2 max_recursion fuel name txt depth w = Some w'.
Proof.
  induction fuel as [|fuel IH]; intros name txt depth w w' Hrun Hsame.
  - discriminate Hrun.
  - cbn [_recurse] in *.
    destruct (depth >? max_recursion)%Z; [assumption|].
    revert Hrun Hsame. apply for_each_replay.
    + intros inc v v'.
      destruct (decide (inc ∈ visited v)); [intros [= <-] x Hx; exact Hx|].
      assert (Hq : queries v ⊆ queries (log (Query inc) (add_visited inc v))).
      { walk_log.
        intros x Hx. apply elem_of_app. left. exact Hx. }
      destruct (dns1 inc) as [txts|e]; [|intros [= <-]; exact Hq].
      intros Hrun. etransitivity; [exact Hq|]. revert Hrun.
      apply for_each_queries_grow. intros s v1 v2.
      apply recurse_queries_grow.
    + intros inc v v' _.
      destruct (decide (inc ∈ visited v)); [trivial|].
      intros Hrun Hsame.
      assert (Hinc : inc ∈ queries v').
      { assert (Hq : inc ∈ queries (log (Query inc) (add_visited inc v))).
        { walk_log. apply elem_of_app. right.
          apply list_elem_of_singleton. reflexivity. }
        destruct (dns1 inc) as [txts|e].
        - revert Hrun Hq. generalize (log (Query inc) (add_visited inc v)).
          intros v0 Hrun Hq.
          assert (Hsub : queries (add_resolved inc v0) ⊆ queries v').
          { revert Hrun. apply for_each_queries_grow. intros s v1 v2.
            apply recurse_queries_grow. }
          apply Hsub. exact Hq.
        - injection Hrun as <-. exact Hq. }
      rewrite <- (Hsame inc Hinc).
      destruct (dns1 inc) as [txts|e]; [|exact Hrun].
      revert Hrun Hsame. apply for_each_replay.
      * intros s v1 v2. apply recurse_queries_grow.
      * intros s v1 v2 _. apply IH.
Qed.
End Replay.

(** C5: in a walk no name is queried twice, and every queried name was
    marked visited before; and a second run, against answers that equal
    those of the first run on every name the first run queried, returns the
    same resolved domains, the same lookup count (and the same errors). *)
Theorem C5_queried_once_and_deterministic
    (dns1 dns2 : string -> answer) (max_recursion : Z)
    (domain spf_text : string) (w : walk) :
  resolve_walk dns1 max_recursion domain spf_text = Some w ->
  (NoDup (queries w) /\ forall n, n ∈ queries w -> n ∈ visited w)
  /\ ((forall n, n ∈ queries w -> dns1 n = dns2 n) ->
      resolve_spf_lookups dns2 max_recursion domain spf_text
        = resolve_spf_lookups dns1 max_recursion domain spf_text
      /\ resolve_spf_lookups dns2 max_recursion domain spf_text
        = Some (resolved w, lookup_count w, errors w)).
Proof.
  intros Hrun. split.
  - eapply recurse_queried_once; [|exact Hrun].
    split; [constructor|]. intros n Hn. inversion Hn.
  - intros Hsame. unfold resolve_spf_lookups. rewrite Hrun.
    unfold resolve_walk in *.
    erewrite recurse_replay; [|exact Hrun|exact Hsame].
    split; reflexivity.
Qed.

Lemma C5_queried_once_and_deterministic_witness :
  exists w,
    resolve_walk (dns_of_zone chain_zone) 10 "d0" chain_text = Some w
    /\ NoDup (queries w)
    /\ resolve_spf_lookups (dns_of_zone wider_zone) 10 "d0" chain_text
       = resolve_spf_lookups (dns_of_zone chain_zone) 10 "d0" chain_text.
Proof.
  destruct (resolve_walk (dns_of_zone chain_zone) 10 "d0" chain_text)
    as [w|] eqn:Hrun; [|vm_compute in Hrun; discriminate Hrun].
  exists w. split; [reflexivity|].
  destruct (C5_queried_once_and_deterministic
              (dns_of_zone chain_zone) (dns_of_zone wider_zone) 10 "d0"
              chain_text w Hrun) as [[Hnd _] Hdet].
  split; [exact Hnd|]. apply Hdet.
  assert (Hq : queries w = chain_names).
  { vm_compute in Hrun. injection Hrun as <-. vm_compute. reflexivity. }
  rewrite Hq. intros n Hn. unfold chain_names in Hn.
  repeat (apply elem_of_cons in Hn as [->|Hn]; [vm_compute; reflexivity|]).
  inversion Hn.
Defined.

(** *** Redirect targets are not followed *)

Section Avoid.
Variable dns_query_txt : string -> answer.
Variable max_recursion : Z.
Variable domain : string.
Variable target : string.

(** No SPF text the resolver can answer with names [target] in an
    [include:]. *)
Hypothesis published_clean :
  forall (n : string) (txts : list string) (t : string),
    dns_query_txt n = Txts txts -> t ∈ txts -> is_spf t = true ->
    target ∉ include_targets t.

Lemma avoided_enter (n : string) (d : Z) (w : walk) :
  (n = target -> n = domain /\ d = 0%Z) ->
  avoided domain target w -> avoided domain target (log (Enter n d) w).
Proof.
  intros Hn (Hq & Hr & He). unfold avoided.
  rewrite queries_log_enter, entered_log_enter. cbn [resolved log].
  split; [assumption|]. split; [assumption|].
  intros d' [Hd|Hd%list_elem_of_singleton]%elem_of_app; [apply He, Hd|].
  injection Hd as Ht ->. destruct (Hn (eq_sym Ht)) as [Hdom Hz].
  split; congruence.
Qed.

Lemma avoided_query (inc : string) (w : walk) :
  inc <> target -> avoided domain target w ->
  avoided domain target (add_resolved inc (log (Query inc) (add_visited inc w))).
Proof.
  intros Hne (Hq & Hr & He). unfold avoided.
  rewrite queries_add_resolved, queries_log_query, queries_add_visited.
  unfold entered. cbn [trace add_resolved resolved]. fold (entered (log (Query inc) (add_visited inc w))).
  rewrite entered_log_query. unfold entered at 1. cbn [trace add_visited log resolved].
  fold (entered w). split; [|split].
  - intros [H|H%list_elem_of_singleton]%elem_of_app; [apply Hq, H|congruence].
  - intros [H%elem_of_singleton|H]%elem_of_union; [congruence|apply Hr, H].
  - exact He.
Qed.

Lemma avoided_failed_query (inc e : string) (w : walk) :
  inc <> target -> avoided domain target w ->
  avoided domain target (add_error e (log (Query inc) (add_visited inc w))).
Proof.
  intros Hne (Hq & Hr & He). unfold avoided.
  rewrite queries_add_error, queries_log_query, queries_add_visited.
  unfold entered. cbn [trace add_error resolved]. fold (entered (log (Query inc) (add_visited inc w))).
  rewrite entered_log_query. unfold entered at 1. cbn [trace add_visited log resolved].
  fold (entered w). split; [|split].
  - intros [H|H%list_elem_of_singleton]%elem_of_app; [apply Hq, H|congruence].
  - exact Hr.
  - exact He.
Qed.

Lemma recurse_avoids (fuel : nat) :
  forall (name txt : string) (depth : Z) (w w' : walk),
    target ∉ include_targets txt ->
    (name = target -> name = domain /\ depth = 0%Z) ->
    avoided domain target w ->
    _recurse dns_query_txt max_recursion fuel name txt depth w = Some w' ->
    avoided domain target w'.
Proof.
  induction fuel as [|fuel IH]; intros name txt depth w w' Hclean Hname Hw Hrun.
  - discriminate Hrun.
  - cbn [_recurse] in Hrun.
    pose proof (avoided_enter name depth w Hname Hw) as Hent.
    destruct (depth >? max_recursion)%Z.
    + injection Hrun as <-. exact Hent.
    + revert Hrun. apply for_each_inv; [|exact Hent].
      intros inc v v' Hinc Hv.
      destruct (decide (inc ∈ visited v)); [intros [= <-]; exact Hv|].
      assert (Hne : inc <> target) by (intros ->; exact (Hclean Hinc)).
      destruct (dns_query_txt inc) as [txts|e] eqn:Hans.
      * apply for_each_inv; [|apply avoided_query; assumption].
        intros s v1 v2 [Hspf Hs]%list_elem_of_filter Hv1.
        apply IH; [|congruence|exact Hv1].
        apply (published_clean inc txts s Hans Hs Hspf).
      * intros [= <-]. apply avoided_failed_query; assumption.
Qed.
End Avoid.

Lemma zone_lookup_in (zone : list (string * list string)) (n t : string) :
  t ∈ zone_lookup zone n -> t ∈ zone_texts zone.
Proof.
  induction zone as [|[m txts] zone IH]; simpl; [trivial|].
  unfold zone_texts. simpl. intros H. apply elem_of_app.
  destruct (String.eqb m n); [left; exact H|right; apply IH, H].
Qed.

(** C9: a name that no SPF text of the walk carries in an [include:] is
    never queried, never added to the resolved domains and never recursed
    into (it can only be the domain the walk starts from); so a name that
    occurs only as a [redirect=] target is left alone. On
    ["v=spf1 include:a.example redirect=r.example"] the parser extracts the
    redirect and counts it among the lookup mechanisms, and the walk
    queries [a.example] only. *)
Theorem C9_redirect_not_followed :
  (forall (dns_query_txt : string -> answer) (max_recursion : Z)
          (domain spf_text target : string) (w : walk),
      target ∉ include_targets spf_text ->
      (forall (n : string) (txts : list string) (t : string),
          dns_query_txt n = Txts txts -> t ∈ txts -> is_spf t = true ->
          target ∉ include_targets t) ->
      resolve_walk dns_query_txt max_recursion domain spf_text = Some w ->
      (target ∉ queries w)
      /\ (target ∉ resolved w)
      /\ forall d, (target, d) ∈ entered w -> target = domain /\ d = 0%Z)
  /\ redirect (parse_spf redirect_text) = Some "r.example"
  /\ lookup_mechanisms (parse_spf redirect_text)
       = ["include:a.example"; "redirect=r.example"]
  /\ ((fun w => (queries w, entered w)) <$>
        resolve_walk (dns_of_zone redirect_zone) 10 "example.com" redirect_text)
       = Some (["a.example"], [("example.com", 0%Z); ("a.example", 1%Z)])
  /\ resolve_spf_lookups (dns_of_zone redirect_zone) 10 "example.com" redirect_text
       = Some ({["a.example"]}, 3%Z, []).
Proof.
  split; [|repeat split; vm_compute; reflexivity].
  intros dns mx domain txt target w Hclean Hpub Hrun.
  apply (recurse_avoids dns mx domain target Hpub (enough mx 0) domain txt 0%Z walk0 w);
    [exact Hclean|auto| |exact Hrun].
  repeat split.
  - intros H. inversion H.
  - apply not_elem_of_empty.
  - inversion H.
  - inversion H.
Qed.

Lemma C9_redirect_not_followed_witness :
  exists w,
    resolve_walk (dns_of_zone redirect_zone) 10 "example.com" redirect_text = Some w
    /\ ("r.example" ∉ queries w)
    /\ ("r.example" ∉ resolved w)
    /\ forall d, ("r.example", d) ∈ entered w -> "r.example" = "example.com" /\ d = 0%Z.
Proof.
  destruct (resolve_walk (dns_of_zone redirect_zone) 10 "example.com" redirect_text)
    as [w|] eqn:Hrun; [|vm_compute in Hrun; discriminate Hrun].
  exists w. split; [reflexivity|].
  apply (proj1 C9_redirect_not_followed (dns_of_zone redirect_zone) 10%Z
           "example.com" redirect_text "r.example" w); [| |exact Hrun].
  - vm_compute. intros H. apply elem_of_cons in H as [H|H]; [discriminate H|inversion H].
  - intros n txts t Hans Ht _.
    assert (Hz : t ∈ zone_texts redirect_zone).
    { apply (zone_lookup_in redirect_zone n).
      unfold dns_of_zone in Hans. congruence. }
    clear Hans Ht. rename Hz into Ht. vm_compute in Ht.
    repeat (apply elem_of_cons in Ht as [->|Ht];
            [vm_compute; intros H;
             repeat (apply elem_of_cons in H as [H|H]; [discriminate H|]);
             inversion H|]).
    inversion Ht.
Defined.

(** * Further properties *)

(** ** Lists *)

Lemma find_some_in {A : Type} (f : A -> bool) (l : list A) (x : A) :
  find f l = Some x -> x ∈ l /\ f x = true.
Proof.
  induction l as [|y l IH]; simpl; [discriminate|].
  destruct (f y) eqn:Hy.
  - intros [= <-]. split; [left|exact Hy].
  - intros H. destruct (IH H) as [Hin Hf]. split; [right; exact Hin|exact Hf].
Qed.

Lemma find_first {A : Type} (f : A -> bool) (l : list A) :
  match find f l with
  | Some x => exists before after,
                l = app before (x :: after) /\ f x = true
                /\ Forall (fun y => f y = false) before
  | None => Forall (fun y => f y = false) l
  end.
Proof.
  induction l as [|y l IH]; cbn [find]; [constructor|].
  destruct (f y) eqn:Hy.
  - exists [], l. repeat split; [exact Hy|constructor].
  - destruct (find f l) as [x|].
    + destruct IH as (b & a & -> & Hx & Hb). exists (y :: b), a.
      repeat split; [exact Hx|constructor; assumption].
    + constructor; assumption.
Qed.

(** ** The SPF parser, again *)

(** *** Literals *)

Lemma run_lits (ic : bool) (w : string) :
  forall (cu : Re.cursor) (k : Re.cursor -> option Re.cursor) (x : Re.cursor),
    Re.run ic (Re.lits w) cu k = Some x ->
    exists matched cu',
      k cu' = Some x
      /\ Re.rest cu = matched ++ Re.rest cu'
      /\ String.length matched = String.length w
      /\ Re.pos cu' = (Re.pos cu + String.length w)%nat
      /\ Re.grp cu' = Re.grp cu.
Proof.
  induction w as [|c w IH]; intros cu k x Hrun.
  - exists "", cu. cbn in Hrun. repeat split; [exact Hrun|cbn; lia].
  - assert (Hstep : exists d s', Re.rest cu = String d s'
             /\ Re.run ic (Re.lits w) (Re.Cursor (Some d) s' (S (Re.pos cu)) (Re.grp cu)) k
                = Some x).
    { destruct w as [|c' w'].
      - cbn [Re.lits Re.run] in *. destruct (Re.rest cu) as [|d s']; [discriminate|].
        destruct (Re.lit_eq ic c d); [|discriminate]. eauto.
      - cbn [Re.lits Re.run] in Hrun. fold (Re.lits (String c' w')) in Hrun.
        destruct (Re.rest cu) as [|d s']; [discriminate|].
        destruct (Re.lit_eq ic c d); [|discriminate]. eauto. }
    destruct Hstep as (d & s' & Hrest & Hrun').
    destruct (IH _ _ _ Hrun') as (matched & cu' & Hk & Hr & Hlen & Hpos & Hgrp).
    exists (String d matched), cu'. cbn [Re.rest Re.pos Re.grp] in *.
    repeat split; [exact Hk|rewrite Hrest, Hr; reflexivity|cbn; lia|cbn; lia|exact Hgrp].
Qed.

(** *** The greedy run *)

Lemma plus_set_takes_run (p : ascii -> bool) (k : Re.cursor -> option Re.cursor) :
  (forall cu, is_Some (k cu)) ->
  forall (s : string) (n : nat) (g : option (nat * nat)),
    match run_length p s with
    | O => Re.plus_set p s n g k = None
    | S m => exists cu, Re.plus_set p s n g k = k cu
                        /\ Re.pos cu = (n + S m)%nat /\ Re.grp cu = g
    end.
Proof.
  intros Hk. induction s as [|c s IH]; intros n g; cbn [run_length Re.plus_set];
    [reflexivity|].
  destruct (p c); [|reflexivity].
  specialize (IH (S n) g). destruct (run_length p s) as [|m].
  - rewrite IH. eexists. split; [reflexivity|]. cbn. split; [lia|reflexivity].
  - destruct IH as (cu & -> & Hpos & Hgrp). exists cu.
    destruct (Hk cu) as [y ->]. repeat split; [lia|exact Hgrp].
Qed.

Lemma substring_skip (a b : string) (n : nat) :
  substring (String.length a) n (a ++ b) = substring 0 n b.
Proof. induction a as [|c a IH]; [reflexivity|exact IH]. Qed.

Lemma substring_run (p : ascii -> bool) (s : string) :
  all_chars p (substring 0 (run_length p s) s).
Proof.
  induction s as [|c s IH]; cbn [run_length]; [exact I|].
  destruct (p c) eqn:Hc; [|exact I]. cbn [substring all_chars]. auto.
Qed.

Lemma substring_run_nonempty (p : ascii -> bool) (s : string) (m : nat) :
  run_length p s = S m -> substring 0 (S m) s <> "".
Proof. destruct s as [|c s]; cbn; [discriminate|]. destruct (p c); discriminate. Qed.

(** *** A tag and its value: [\b<tag>([set]+)] *)

Lemma match_at_tagged (ic : bool) (w : string) (p : ascii -> bool)
    (pc : option ascii) (s : string) (m : Re.rmatch) :
  Re.match_at ic (tagged w p) pc s = Some m ->
  exists g, Re.group1 m = Some g /\ g <> "" /\ all_chars p g.
Proof.
  unfold Re.match_at, tagged. cbn [Re.run].
  destruct (Re.at_boundary _); [|discriminate].
  destruct (Re.run ic (Re.lits w) _ _) as [x|] eqn:Hrun; [|discriminate].
  intros [= <-]. cbn [Re.group1].
  apply run_lits in Hrun as (matched & cu' & Hk & Hr & Hlen & Hpos & Hgrp).
  cbn [Re.rest Re.pos Re.grp] in *.
  pose proof (plus_set_takes_run p
                (fun cu'' => Some (Re.Cursor (Re.prev cu'') (Re.rest cu'') (Re.pos cu'')
                                     (Some (Re.pos cu', Re.pos cu''))))
                (fun _ => ltac:(eauto)) (Re.rest cu') (Re.pos cu') (Re.grp cu')) as Hp.
  destruct (run_length p (Re.rest cu')) as [|n] eqn:Hn.
  - rewrite Hp in Hk. discriminate Hk.
  - destruct Hp as (cu & Hp & Hpos' & _). rewrite Hp in Hk. injection Hk as <-.
    cbn [Re.grp]. rewrite Hpos', Hpos. cbn [Nat.add].
    replace (String.length w + S n - String.length w)%nat with (S n) by lia.
    rewrite Hr, <- Hlen, substring_skip.
    eexists. split; [reflexivity|]. split.
    + apply (substring_run_nonempty p _ _ Hn).
    + rewrite <- Hn. apply substring_run.
Qed.

(** *** What [findall] and [search] return *)

Lemma finditer_from_at (ic : bool) (r : Re.regex) (s : string) :
  forall (p : option ascii) (skip : nat) (m : Re.rmatch),
    m ∈ Re.finditer_from ic r p s skip ->
    exists p' s', Re.match_at ic r p' s' = Some m.
Proof.
  induction s as [|c s IH]; intros p skip m; destruct skip as [|n];
    cbn [Re.finditer_from].
  - destruct (Re.match_at ic r p "") as [m0|] eqn:Hm; [|intros H; inversion H].
    intros [->|H]%elem_of_cons; [eauto|inversion H].
  - intros H. inversion H.
  - destruct (Re.match_at ic r p (String c s)) as [m0|] eqn:Hm.
    + intros [->|H]%elem_of_cons; [eauto|apply (IH _ _ _ H)].
    + apply IH.
  - apply IH.
Qed.

Lemma search_from_split (ic : bool) (r : Re.regex) (s : string) :
  forall (p : option ascii) (m : Re.rmatch),
    Re.search_from ic r p s = Some m ->
    exists pre s', s = pre ++ s'
                   /\ Re.match_at ic r (last_opt p pre) s' = Some m.
Proof.
  induction s as [|c s IH]; intros p m; cbn [Re.search_from];
    destruct (Re.match_at ic r p _) eqn:Hm; try discriminate.
  - intros [= <-]. exists "", "". auto.
  - intros [= <-]. exists "", (String c s). auto.
  - intros H. destruct (IH _ _ H) as (pre & s' & -> & Hm').
    exists (String c pre), s'. auto.
Qed.

Lemma last_opt_some (pre : string) :
  forall (p : option ascii) (c : ascii),
    last_opt p pre = Some c ->
    (pre = "" /\ p = Some c) \/ exists pre', pre = pre' ++ String c "".
Proof.
  induction pre as [|d pre IH]; intros p c H; cbn in H; [left; auto|].
  right. destruct (IH _ _ H) as [[-> Hd]|[pre' ->]].
  - injection Hd as ->. exists "". reflexivity.
  - exists (String d pre'). reflexivity.
Qed.

Lemma append_snoc (a : string) (c : ascii) (b : string) :
  (a ++ String c "") ++ b = a ++ String c b.
Proof.
  induction a as [|d a IH]; [reflexivity|].
  change (String d ((a ++ String c "") ++ b) = String d (a ++ String c b)).
  rewrite IH. reflexivity.
Qed.

(** *** The qualifier of [all] *)

Lemma qualifier_sign (c d : ascii) :
  d = "~"%char \/ d = "-"%char \/ d = "+"%char \/ d = "?"%char ->
  Re.lit_eq true d c = true -> Py.is_word c = false.
Proof.
  intros [-> | [-> | [-> | ->]]];
    destruct c as [[] [] [] [] [] [] [] []]; vm_compute; intros H;
    try discriminate H; reflexivity.
Qed.

Lemma match_all_after_word (p : option ascii) (s : string) (m : Re.rmatch) :
  Re.match_at true SPF_ALL_RE p s = Some m ->
  Re.word_opt p = true /\ exists post, s = Re.group0 m ++ post.
Proof.
  unfold Re.match_at.
  destruct s as [|c1 [|c2 [|c3 [|c4 s]]]];
    cbn -[Re.lit_eq Re.at_boundary];
    repeat match goal with
           | |- context [if ?b then _ else _] => destruct b eqn:?
           end; try discriminate.
  all: intros [= <-]; cbn [Re.group0 Re.pos substring].
  all: replace (substring 0 0 s) with "" by (destruct s; reflexivity).
  all: split; [|exists s; reflexivity].
  all: match goal with
       | H : Re.at_boundary (Re.Cursor ?pp (String ?cc _) 0 None) = true,
         L : Re.lit_eq true ?d ?cc = true |- _ =>
           unfold Re.at_boundary in H; cbn [Re.prev Re.rest Re.next_char Re.word_opt] in H;
           rewrite (qualifier_sign cc d) in H by (auto; exact L);
           destruct (Re.word_opt pp); [reflexivity|discriminate H]
       end.
Qed.

(** X1: the [all] mechanism the parser reports always stands in the text
    directly after a word character (a letter, a digit or an underscore):
    a qualifier that follows a space or starts the text is never
    reported. *)
Theorem all_mechanism_follows_a_word_character (spf_text q : string) :
  all_mechanism (parse_spf spf_text) = Some q ->
  exists pre c post,
    spf_text = pre ++ String c (q ++ post) /\ Py.is_word c = true.
Proof.
  unfold parse_spf. cbn [all_mechanism]. unfold Re.search.
  destruct (Re.search_from true SPF_ALL_RE None spf_text) as [m|] eqn:Hs;
    [|discriminate].
  cbn. intros [= <-].
  apply search_from_split in Hs as (pre & s' & -> & Hm).
  apply match_all_after_word in Hm as [Hw [post ->]].
  destruct (last_opt None pre) as [c|] eqn:Hl; [|discriminate Hw].
  apply last_opt_some in Hl as [[_ Hn]|[pre' ->]]; [discriminate Hn|].
  exists pre', c, post. split; [apply append_snoc|exact Hw].
Qed.

Lemma all_mechanism_follows_a_word_character_witness :
  exists pre c post,
    "v=spf1 include:x.com mx~all" = pre ++ String c ("~all" ++ post)
    /\ Py.is_word c = true.
Proof.
  apply (all_mechanism_follows_a_word_character "v=spf1 include:x.com mx~all" "~all").
  vm_compute. reflexivity.
Defined.

(** *** Include and redirect targets *)

Lemma rstrip_by_fixed (p : ascii -> bool) (s : string) :
  all_chars (fun c => negb (p c)) s -> Py.rstrip_by p s = s.
Proof.
  induction s as [|c s IH]; [reflexivity|]. intros [Hc Hs]. cbn [Py.rstrip_by].
  rewrite (IH Hs). apply negb_true_iff in Hc. rewrite Hc. destruct s; reflexivity.
Qed.

Lemma strip_fixed (s : string) : all_chars not_space s -> Py.strip s = s.
Proof.
  intros Hs. unfold Py.strip. rewrite lstrip_by_fixed.
  - apply rstrip_by_fixed, Hs.
  - destruct s as [|c s]; [exact I|]. destruct Hs as [Hc _].
    apply negb_true_iff in Hc. exact Hc.
Qed.

Lemma findall_tagged (w : string) (p : ascii -> bool) (txt : string) :
  Forall (fun g => g <> "" /\ all_chars p g) (Re.findall true (tagged w p) txt).
Proof.
  unfold Re.findall. apply Forall_forall. intros g Hg.
  apply list_elem_of_fmap in Hg as (m & -> & Hm).
  apply finditer_from_at in Hm as (p' & s' & Hm).
  apply match_at_tagged in Hm as (g & -> & Hg).
  replace (Re.has_group (tagged w p)) with true; [exact Hg|].
  unfold tagged. cbn. destruct (Re.has_group (Re.lits w)); reflexivity.
Qed.

Lemma map_fixed {A : Type} (f : A -> A) (l : list A) :
  Forall (fun x => f x = x) l -> map f l = l.
Proof. induction 1 as [|x l Hx _ IH]; cbn; [reflexivity|]. rewrite Hx, IH. reflexivity. Qed.

(** X2: every include target the parser extracts is a non-empty text
    without whitespace, and so is the redirect target when there is one;
    hence the [strip] of the resolver changes nothing: the targets a walk
    follows in a record are exactly the includes the parser reports for
    it. *)
Theorem include_targets_are_the_parsed_includes (spf_text : string) :
  Forall (fun g => g <> "" /\ all_chars not_space g) (includes (parse_spf spf_text))
  /\ include_targets spf_text = includes (parse_spf spf_text)
  /\ (forall r, redirect (parse_spf spf_text) = Some r ->
                r <> "" /\ all_chars not_space r).
Proof.
  cbn [parse_spf includes redirect].
  change SPF_INCLUDE_RE with (tagged "include:" not_space).
  change SPF_REDIRECT_RE with (tagged "redirect=" not_space).
  pose proof (findall_tagged "include:" not_space spf_text) as Hinc.
  pose proof (findall_tagged "redirect=" not_space spf_text) as Hred.
  split; [exact Hinc|]. split.
  - unfold include_targets. change SPF_INCLUDE_RE with (tagged "include:" not_space).
    apply map_fixed. eapply Forall_impl; [exact Hinc|].
    intros g [_ Hg]. apply strip_fixed, Hg.
  - intros r Hr. destruct (Re.findall true (tagged "redirect=" not_space) spf_text)
      as [|r0 rs]; [discriminate Hr|].
    injection Hr as <-. apply Forall_cons in Hred as [H _]. exact H.
Qed.

(** ** The SPF lookup resolver, again *)

Lemma entered_add_error (e : string) (w : walk) : entered (add_error e w) = entered w.
Proof. reflexivity. Qed.
Lemma entered_add_lookups (n : Z) (w : walk) : entered (add_lookups n w) = entered w.
Proof. reflexivity. Qed.
Lemma entered_add_visited (x : string) (w : walk) : entered (add_visited x w) = entered w.
Proof. reflexivity. Qed.
Lemma entered_add_resolved (x : string) (w : walk) : entered (add_resolved x w) = entered w.
Proof. reflexivity. Qed.

Ltac walk_push :=
  repeat first
    [ rewrite queries_log_enter | rewrite queries_log_query
    | rewrite queries_add_error | rewrite queries_add_lookups
    | rewrite queries_add_visited | rewrite queries_add_resolved
    | rewrite entered_log_enter | rewrite entered_log_query
    | rewrite entered_add_error | rewrite entered_add_lookups
    | rewrite entered_add_visited | rewrite entered_add_resolved ];
  cbn [visited resolved errors lookup_count log add_error add_lookups
       add_visited add_resolved].


Section Bookkeeping.
Variable dns_query_txt : string -> answer.
Variable max_recursion : Z.

Lemma tidy_answered (inc : string) (txts : list string) (w : walk) :
  dns_query_txt inc = Txts txts -> tidy dns_query_txt w ->
  tidy dns_query_txt (add_resolved inc (log (Query inc) (add_visited inc w))).
Proof.
  intros Hans [Hv Hr]. unfold tidy. walk_push. split; intros n.
  - rewrite elem_of_union, elem_of_singleton, elem_of_app, list_elem_of_singleton, Hv. tauto.
  - rewrite elem_of_union, elem_of_singleton, elem_of_app, list_elem_of_singleton, Hr.
    split.
    + intros [->|[Hq Ha]]; [split; [tauto|eauto]|tauto].
    + intros [[Hq| ->] Ha]; tauto.
Qed.

Lemma tidy_failed (inc e msg : string) (w : walk) :
  dns_query_txt inc = Raised msg -> tidy dns_query_txt w ->
  tidy dns_query_txt (add_error e (log (Query inc) (add_visited inc w))).
Proof.
  intros Hans [Hv Hr]. unfold tidy. walk_push. split; intros n.
  - rewrite elem_of_union, elem_of_singleton, elem_of_app, list_elem_of_singleton, Hv. tauto.
  - rewrite elem_of_app, list_elem_of_singleton, Hr. split.
    + intros [Hq Ha]. tauto.
    + intros [[Hq| ->] Ha]; [tauto|]. destruct Ha as [txts Ha]. congruence.
Qed.

Lemma recurse_tidy (fuel : nat) :
  forall (name txt : string) (depth : Z) (w w' : walk),
    tidy dns_query_txt w ->
    _recurse dns_query_txt max_recursion fuel name txt depth w = Some w' ->
    tidy dns_query_txt w'.
Proof.
  induction fuel as [|fuel IH]; intros name txt depth w w' Hw Hrun.
  - discriminate Hrun.
  - cbn [_recurse] in Hrun.
    assert (Hent : tidy dns_query_txt (log (Enter name depth) w)).
    { destruct Hw as [Hv Hr]. unfold tidy. walk_push. split; assumption. }
    destruct (depth >? max_recursion)%Z.
    + injection Hrun as <-. exact Hent.
    + revert Hrun. apply for_each_inv; [|exact Hent].
      intros inc v v' _ Hv.
      destruct (decide (inc ∈ visited v)); [intros [= <-]; exact Hv|].
      destruct (dns_query_txt inc) as [txts|e] eqn:Hans.
      * apply for_each_inv; [|apply (tidy_answered inc txts); assumption].
        intros s v1 v2 _. apply IH.
      * intros [= <-]. apply (tidy_failed inc _ e); assumption.
Qed.

Lemma recurse_entered_grow (fuel : nat) :
  forall (name txt : string) (depth : Z) (w w' : walk),
    _recurse dns_query_txt max_recursion fuel name txt depth w = Some w' ->
    entered w ⊆ entered w'.
Proof.
  induction fuel as [|fuel IH]; intros name txt depth w w' Hrun.
  - discriminate Hrun.
  - cbn [_recurse] in Hrun.
    assert (Hent : entered w ⊆ entered (log (Enter name depth) w)).
    { walk_push. intros x Hx. apply elem_of_app. left. exact Hx. }
    destruct (depth >? max_recursion)%Z.
    + injection Hrun as <-. exact Hent.
    + revert Hrun.
      apply (for_each_inv (fun v => entered w ⊆ entered v)); [|exact Hent].
      intros inc v v' _ Hv.
      destruct (decide (inc ∈ visited v)); [intros [= <-]; exact Hv|].
      destruct (dns_query_txt inc) as [txts|e]; [|intros [= <-]; walk_push; exact Hv].
      apply (for_each_inv (fun v0 => entered w ⊆ entered v0)); [|walk_push; exact Hv].
      intros s v1 v2 _ Hv1 Hs. etransitivity; [exact Hv1|].
      apply (IH _ _ _ _ _ Hs).
Qed.



Lemma recurse_depths (fuel : nat) :
  forall (name txt : string) (depth : Z) (w w' : walk),
    (0 <= depth <= Z.max 0 (max_recursion + 1))%Z ->
    depths_within max_recursion w ->
    _recurse dns_query_txt max_recursion fuel name txt depth w = Some w' ->
    depths_within max_recursion w'.
Proof.
  induction fuel as [|fuel IH]; intros name txt depth w w' Hdepth Hw Hrun.
  - discriminate Hrun.
  - cbn [_recurse] in Hrun.
    assert (Hent : depths_within max_recursion (log (Enter name depth) w)).
    { intros n d. walk_push.
      intros [H|[= -> ->]%list_elem_of_singleton]%elem_of_app; [apply (Hw n d H)|exact Hdepth]. }
    destruct (Z.gtb_spec depth max_recursion) as [Hd|Hd].
    + injection Hrun as <-. exact Hent.
    + revert Hrun. apply for_each_inv; [|exact Hent].
      intros inc v v' _ Hv.
      destruct (decide (inc ∈ visited v)); [intros [= <-]; exact Hv|].
      destruct (dns_query_txt inc) as [txts|msg];
        [|intros [= <-]; unfold depths_within; walk_push; exact Hv].
      apply for_each_inv; [|unfold depths_within; walk_push; exact Hv].
      intros s v1 v2 _. apply IH. lia.
Qed.

Lemma recurse_count_grows (fuel : nat) :
  forall (name txt : string) (depth : Z) (w w' : walk),
    _recurse dns_query_txt max_recursion fuel name txt depth w = Some w' ->
    (lookup_count w <= lookup_count w')%Z.
Proof.
  induction fuel as [|fuel IH]; intros name txt depth w w' Hrun.
  - discriminate Hrun.
  - cbn [_recurse] in Hrun.
    destruct (depth >? max_recursion)%Z.
    + injection Hrun as <-. reflexivity.
    + revert Hrun.
      apply (for_each_inv (fun v => (lookup_count w <= lookup_count v)%Z)).
      * intros inc v v' _ Hv.
        destruct (decide (inc ∈ visited v)); [intros [= <-]; exact Hv|].
        destruct (dns_query_txt inc) as [txts|msg]; [|intros [= <-]; exact Hv].
        apply (for_each_inv (fun v0 => (lookup_count w <= lookup_count v0)%Z)); [|exact Hv].
        intros s v1 v2 _ Hv1 Hs. etransitivity; [exact Hv1|].
        apply (IH _ _ _ _ _ Hs).
      * cbn [lookup_count add_lookups log]. lia.
Qed.
End Bookkeeping.

(** X3: the walk always ends, and its resolved domains are exactly the
    queried names whose query returned (with or without an SPF string among
    the answers); a name whose query raised is visited but not resolved. *)
Theorem walk_resolved_are_answered
    (dns_query_txt : string -> answer) (max_recursion : Z)
    (domain spf_text : string) :
  exists w,
    resolve_walk dns_query_txt max_recursion domain spf_text = Some w
    /\ (forall n, n ∈ resolved w <->
                  n ∈ queries w /\ exists txts, dns_query_txt n = Txts txts)
    /\ (forall n, n ∈ visited w <-> n ∈ queries w)
    /\ resolved w ⊆ visited w.
Proof.
  destruct (recurse_total dns_query_txt max_recursion (enough max_recursion 0)
              domain spf_text 0 walk0) as [w Hw]; [lia|].
  exists w. split; [exact Hw|].
  assert (Ht : tidy dns_query_txt w).
  { eapply recurse_tidy; [|exact Hw].
    split; intros n.
    - split; [intros H%elem_of_empty; contradiction|intros H; inversion H].
    - split; [intros H%elem_of_empty; contradiction|intros [H _]; inversion H]. }
  destruct Ht as [Hv Hr]. split; [exact Hr|]. split; [exact Hv|].
  intros n Hn. apply Hv. apply Hr in Hn. tauto.
Qed.


(** X5: [_recurse] is never called deeper than one level past the limit:
    every call of a walk has a depth between 0 and [max_recursion + 1] (0
    for a negative limit). *)
Theorem walk_depths_bounded
    (dns_query_txt : string -> answer) (max_recursion : Z)
    (domain spf_text : string) :
  exists w,
    resolve_walk dns_query_txt max_recursion domain spf_text = Some w
    /\ forall n d, (n, d) ∈ entered w ->
         (0 <= d <= Z.max 0 (max_recursion + 1))%Z.
Proof.
  destruct (recurse_total dns_query_txt max_recursion (enough max_recursion 0)
              domain spf_text 0 walk0) as [w Hw]; [lia|].
  exists w. split; [exact Hw|].
  eapply recurse_depths; [| |exact Hw]; [lia|].
  intros n d H. inversion H.
Qed.

(** With a limit of 0 or more, a walk counts at least the lookup
    mechanisms of the root record. *)
Lemma walk_counts_root
    (dns_query_txt : string -> answer) (max_recursion : Z)
    (domain spf_text : string) (w : walk) :
  (0 <= max_recursion)%Z ->
  resolve_walk dns_query_txt max_recursion domain spf_text = Some w ->
  (Z.of_nat (length (lookup_mechanisms (parse_spf spf_text))) <= lookup_count w)%Z.
Proof.
  intros Hmax Hw. unfold resolve_walk, enough in Hw. cbn [_recurse] in Hw.
  destruct (Z.gtb_spec 0 max_recursion) as [?|_]; [lia|].
  cbn [parse_spf lookup_mechanisms]. revert Hw.
  apply (for_each_inv (fun v =>
           (Z.of_nat (length (Re.findall true SPF_MECHANISM_LOOKUP_RE spf_text))
            <= lookup_count v)%Z)).
  - intros inc v v' _ Hv.
    destruct (decide (inc ∈ visited v)); [intros [= <-]; exact Hv|].
    destruct (dns_query_txt inc) as [txts|msg]; [|intros [= <-]; exact Hv].
    intros Hs. etransitivity; [exact Hv|]. revert Hs.
    apply (for_each_inv (fun v0 =>
             (lookup_count (add_resolved inc (log (Query inc) (add_visited inc v)))
              <= lookup_count v0)%Z)); [|reflexivity].
    intros s v1 v2 _ Hv1 Hs. etransitivity; [exact Hv1|].
    apply (recurse_count_grows _ _ _ _ _ _ _ _ Hs).
  - cbn [lookup_count add_lookups log walk0]. lia.
Qed.

(** X6: with a limit of 0 or more, the lookup count of a walk is at least
    the number of lookup mechanisms the parser finds in the root record,
    and for a record without includes it is exactly that number, with
    nothing resolved, no error and no query. With a negative limit nothing
    is walked and nothing counted: the only outcome is the depth error
    naming the domain. *)
Theorem walk_counts_root_mechanisms
    (dns_query_txt : string -> answer) (max_recursion : Z)
    (domain spf_text : string) :
  exists w,
    resolve_walk dns_query_txt max_recursion domain spf_text = Some w
    /\ ((0 <= max_recursion)%Z ->
        (Z.of_nat (length (lookup_mechanisms (parse_spf spf_text))) <= lookup_count w)%Z
        /\ (includes (parse_spf spf_text) = [] ->
            resolved w = ∅ /\ errors w = [] /\ queries w = []
            /\ lookup_count w
               = Z.of_nat (length (lookup_mechanisms (parse_spf spf_text)))))
    /\ ((max_recursion < 0)%Z ->
        resolved w = ∅ /\ lookup_count w = 0%Z /\ queries w = []
        /\ errors w = ["spf include recursion depth exceeded at " ++ domain]).
Proof.
  destruct (recurse_total dns_query_txt max_recursion (enough max_recursion 0)
              domain spf_text 0 walk0) as [w Hw]; [lia|].
  exists w. split; [exact Hw|]. split; intros Hmax.
  - split; [apply (walk_counts_root _ _ _ _ _ Hmax Hw)|].
    unfold resolve_walk, enough in Hw. cbn [_recurse] in Hw.
    destruct (Z.gtb_spec 0 max_recursion) as [?|_]; [lia|].
    cbn [parse_spf lookup_mechanisms includes].
    intros Hinc. unfold include_targets in Hw. rewrite Hinc in Hw.
    injection Hw as <-. cbn. repeat split.
  - unfold resolve_walk, enough in Hw. cbn [_recurse] in Hw.
    destruct (Z.gtb_spec 0 max_recursion) as [_|?]; [|lia].
    injection Hw as <-. cbn. repeat split.
Qed.

Lemma walk_counts_root_mechanisms_witness :
  exists w,
    resolve_walk flaky_dns 10 "example.com" flaky_text = Some w
    /\ (2 <= lookup_count w)%Z.
Proof.
  destruct (walk_counts_root_mechanisms flaky_dns 10 "example.com" flaky_text)
    as (w & Hw & Hcount & _).
  exists w. split; [exact Hw|].
  etransitivity; [|apply Hcount; lia]. vm_compute. discriminate.
Defined.

(** ** DMARC records *)

Lemma split_cons (sep c : ascii) (s : string) :
  Ascii.eqb c sep = false ->
  Py.split sep (String c s)
    = String c (first_part sep s) :: tl (Py.split sep s).
Proof.
  intros Hc. unfold first_part. cbn [Py.split]. rewrite Hc.
  destruct (Py.split sep s); reflexivity.
Qed.

Lemma split_not_nil (sep : ascii) (s : string) : Py.split sep s <> [].
Proof.
  destruct s as [|c s]; cbn [Py.split]; [discriminate|].
  destruct (Ascii.eqb c sep); [discriminate|].
  destruct (Py.split sep s); discriminate.
Qed.

Lemma version_char (c : ascii) :
  Py.lower_char c = "v"%char ->
  Py.is_space c = false /\ Ascii.eqb c ";" = false /\ Ascii.eqb c "=" = false
  /\ Py.lower (String c "") = "v".
Proof.
  destruct c as [[] [] [] [] [] [] [] []]; vm_compute; intros H;
    try discriminate H; repeat split.
Qed.

Lemma equals_char (c : ascii) : Py.lower_char c = "="%char -> c = "="%char.
Proof.
  destruct c as [[] [] [] [] [] [] [] []]; vm_compute; intros H;
    try discriminate H; reflexivity.
Qed.

Lemma space_not_semicolon (c : ascii) :
  Py.is_space c = true -> Ascii.eqb c ";" = false.
Proof.
  destruct (Ascii.eqb_spec c ";") as [->|]; [vm_compute; discriminate|reflexivity].
Qed.

Lemma rstrip_by_head (p : ascii -> bool) (s : string) (c : ascii) (r : string) :
  Py.rstrip_by p s = String c r ->
  exists s', s = String c s' /\ (r = "" \/ Py.rstrip_by p s' = r).
Proof.
  destruct s as [|a s']; cbn [Py.rstrip_by]; [discriminate|].
  destruct (Py.rstrip_by p s') as [|b r'] eqn:Hr.
  - destruct (p a); [discriminate|]. intros [= -> <-]. eauto.
  - intros [= -> <-]. eauto.
Qed.

Lemma rstrip_by_head2 (p : ascii -> bool) (s : string) (a b : ascii) (r : string) :
  Py.rstrip_by p s = String a (String b r) ->
  exists s', s = String a (String b s').
Proof.
  intros H. apply rstrip_by_head in H as (s1 & -> & [H|H]); [discriminate H|].
  apply rstrip_by_head in H as (s2 & -> & _). eauto.
Qed.

Lemma rstrip_by_keeps2 (p : ascii -> bool) (a b : ascii) (s : string) :
  p b = false ->
  exists r, Py.rstrip_by p (String a (String b s)) = String a (String b r).
Proof.
  intros Hb. cbn [Py.rstrip_by].
  destruct (Py.rstrip_by p s) as [|c r]; [rewrite Hb|]; eauto.
Qed.

Lemma contains_here (c : ascii) (s : string) :
  Py.contains (String c "") (String c s) = true.
Proof.
  cbn [Py.contains String.prefix].
  destruct (ascii_dec c c); [destruct s; reflexivity|congruence].
Qed.

Lemma contains_later (sub : string) (c : ascii) (s : string) :
  Py.contains sub s = true -> Py.contains sub (String c s) = true.
Proof. intros H. cbn [Py.contains]. rewrite H. apply orb_true_r. Qed.

(** The first part of a text keeps the tag the text starts with. *)
Lemma first_part_lstrip (c1 : ascii) (t : string) :
  Py.is_space c1 = false -> Ascii.eqb c1 ";" = false ->
  forall u, Py.lstrip_by Py.is_space t = String c1 (String "=" u) ->
  exists x, Py.lstrip_by Py.is_space (first_part ";" t) = String c1 (String "=" x).
Proof.
  intros Hs Hsemi. induction t as [|c t IH]; intros u Hl; [discriminate Hl|].
  cbn [Py.lstrip_by] in Hl. destruct (Py.is_space c) eqn:Hc.
  - unfold first_part. rewrite split_cons by (apply space_not_semicolon, Hc).
    cbn [hd Py.lstrip_by]. rewrite Hc. apply (IH u Hl).
  - injection Hl as -> ->. unfold first_part.
    rewrite split_cons by exact Hsemi. unfold first_part.
    rewrite split_cons by reflexivity.
    cbn [hd tl Py.lstrip_by]. rewrite Hs. eauto.
Qed.

Lemma dmarc_part_keeps (tags : gmap string string) (p k : string) :
  is_Some (tags !! k) -> is_Some (dmarc_part tags p !! k).
Proof.
  intros Hk. unfold dmarc_part. destruct (Py.contains "=" p); [|exact Hk].
  destruct (Py.split_once "=" p) as [k' v].
  destruct (decide (Py.lower (Py.strip k') = k)) as [<-|Hne].
  - rewrite lookup_insert_eq. eauto.
  - rewrite lookup_insert_ne by exact Hne. exact Hk.
Qed.

Lemma fold_dmarc_part_keeps (parts : list string) (k : string) :
  forall tags : gmap string string,
    is_Some (tags !! k) -> is_Some (fold_left dmarc_part parts tags !! k).
Proof.
  induction parts as [|p parts IH]; intros tags Hk; [exact Hk|].
  apply IH, dmarc_part_keeps, Hk.
Qed.

(** A text that passes the test of [get_dmarc_record] is not empty, and
    parsing it gives a mapping with the version tag [v]. *)
Lemma dmarc_record_has_version (t : string) :
  is_dmarc t = true -> Py.truthy t = true /\ is_Some (parse_dmarc t !! "v").
Proof.
  unfold is_dmarc, Py.startswith, Py.strip. intros Hd.
  destruct (Py.rstrip_by Py.is_space (Py.lstrip_by Py.is_space t))
    as [|c1 [|c2 r]] eqn:Hstrip; cbn [Py.lower String.prefix] in Hd;
    try discriminate Hd.
  { destruct (ascii_dec "v" (Py.lower_char c1)); discriminate Hd. }
  destruct (ascii_dec "v" (Py.lower_char c1)) as [H1|]; [|discriminate Hd].
  destruct (ascii_dec "=" (Py.lower_char c2)) as [H2|]; [|discriminate Hd].
  symmetry in H1, H2. apply equals_char in H2 as ->.
  destruct (version_char c1 H1) as (Hs & Hsemi & Heq & Hlow).
  apply rstrip_by_head2 in Hstrip as [u Hl].
  split; [destruct t; [discriminate Hl|reflexivity]|].
  destruct (first_part_lstrip c1 t Hs Hsemi u Hl) as [x Hx].
  unfold parse_dmarc.
  destruct (Py.split ";" t) as [|p0 ps] eqn:Hsplit; [destruct (split_not_nil _ _ Hsplit)|].
  unfold first_part in Hx. rewrite Hsplit in Hx. cbn [hd] in Hx.
  cbn [map fold_left]. apply fold_dmarc_part_keeps.
  unfold dmarc_part, Py.strip at 1 2. rewrite Hx.
  destruct (rstrip_by_keeps2 Py.is_space c1 "=" x eq_refl) as [y ->].
  rewrite (contains_later _ _ _ (contains_here "=" y)).
  cbn [Py.split_once]. rewrite Heq. cbn [Ascii.eqb Bool.eqb].
  replace (Py.strip (String c1 "")) with (String c1 "").
  2:{ unfold Py.strip. cbn. rewrite Hs. cbn. rewrite Hs. reflexivity. }
  rewrite Hlow. rewrite lookup_insert_eq. eauto.
Qed.

(** X7: [get_dmarc_record] returns the first TXT string of
    [_dmarc.<domain>] that starts with [v=dmarc1] up to case and leading
    whitespace. A record it returns is never empty, so the scoring engine
    never takes it for a missing record, and its parsed tags always hold
    the version tag [v]. It returns [None] exactly when no TXT string
    passes the test, and raises only what the query raises. *)
Theorem dmarc_record_is_first_and_versioned
    (dns_query_txt : string -> answer) (domain : string) :
  match get_dmarc_record dns_query_txt domain with
  | Returns (Some t) =>
      (exists before after,
          dns_query_txt ("_dmarc." ++ domain) = Txts (app before (t :: after))
          /\ Forall (fun y => is_dmarc y = false) before)
      /\ is_dmarc t = true
      /\ absent (Some t) = false
      /\ is_Some (parse_dmarc t !! "v")
  | Returns None =>
      exists txts,
        dns_query_txt ("_dmarc." ++ domain) = Txts txts
        /\ Forall (fun y => is_dmarc y = false) txts
  | Raises e => dns_query_txt ("_dmarc." ++ domain) = Raised e
  end.
Proof.
  unfold get_dmarc_record.
  destruct (dns_query_txt _) as [txts|e]; [|reflexivity].
  pose proof (find_first is_dmarc txts) as Hf.
  destruct (find is_dmarc txts) as [t|].
  - destruct Hf as (b & a & -> & Ht & Hb).
    destruct (dmarc_record_has_version t Ht) as [Htruthy Hv].
    split; [eauto|]. split; [exact Ht|]. split; [|exact Hv].
    cbn [absent]. rewrite Htruthy. reflexivity.
  - eauto.
Qed.

Lemma split_append (sep : ascii) (a b : string) :
  Py.split sep (a ++ String sep b) = app (Py.split sep a) (Py.split sep b).
Proof.
  induction a as [|c a IH].
  - change (Py.split sep (String sep b) = "" :: Py.split sep b).
    cbn [Py.split]. rewrite Ascii.eqb_refl. reflexivity.
  - change (Py.split sep (String c (a ++ String sep b))
            = app (Py.split sep (String c a)) (Py.split sep b)).
    cbn [Py.split]. rewrite IH. destruct (Ascii.eqb c sep); [reflexivity|].
    destruct (Py.split sep a) as [|p ps] eqn:Hs; [destruct (split_not_nil _ _ Hs)|].
    reflexivity.
Qed.

Lemma dmarc_part_union (tags : gmap string string) (p : string) :
  dmarc_part tags p = dmarc_part ∅ p ∪ tags.
Proof.
  unfold dmarc_part. destruct (Py.contains "=" p).
  - destruct (Py.split_once "=" p) as [k v].
    rewrite insert_empty. apply insert_union_singleton_l.
  - symmetry. apply (left_id_L ∅ (∪)).
Qed.

Lemma fold_dmarc_part_union (parts : list string) :
  forall tags : gmap string string,
    fold_left dmarc_part parts tags = fold_left dmarc_part parts ∅ ∪ tags.
Proof.
  induction parts as [|p parts IH]; intros tags; cbn [fold_left].
  - symmetry. apply (left_id_L ∅ (∪)).
  - rewrite (IH (dmarc_part tags p)), (IH (dmarc_part ∅ p)).
    rewrite (dmarc_part_union tags p). apply (assoc_L (∪)).
Qed.

(** X8: parsing two records joined by a semicolon gives the tags of the
    second laid over the tags of the first: a tag that occurs again later
    in a record takes its later value, and the other tags are kept. *)
Theorem parse_dmarc_later_tags_win (a b : string) :
  parse_dmarc (a ++ ";" ++ b) = parse_dmarc b ∪ parse_dmarc a
  /\ forall k,
       parse_dmarc (a ++ ";" ++ b) !! k
       = match parse_dmarc b !! k with
         | Some v => Some v
         | None => parse_dmarc a !! k
         end.
Proof.
  assert (H : parse_dmarc (a ++ ";" ++ b) = parse_dmarc b ∪ parse_dmarc a).
  { unfold parse_dmarc.
    change (a ++ ";" ++ b) with (a ++ String ";" b).
    rewrite split_append, map_app, fold_left_app.
    apply fold_dmarc_part_union. }
  split; [exact H|]. intros k. rewrite H, lookup_union.
  destruct (parse_dmarc b !! k), (parse_dmarc a !! k); reflexivity.
Qed.

Lemma is_space_lower (c : ascii) : Py.is_space (Py.lower_char c) = Py.is_space c.
Proof. destruct c as [[] [] [] [] [] [] [] []]; reflexivity. Qed.

Lemma lstrip_lower (s : string) :
  Py.lstrip_by Py.is_space (Py.lower s) = Py.lower (Py.lstrip_by Py.is_space s).
Proof.
  induction s as [|c s IH]; [reflexivity|]. cbn [Py.lower Py.lstrip_by].
  rewrite is_space_lower. destruct (Py.is_space c); [exact IH|reflexivity].
Qed.

Lemma rstrip_lower (s : string) :
  Py.rstrip_by Py.is_space (Py.lower s) = Py.lower (Py.rstrip_by Py.is_space s).
Proof.
  induction s as [|c s IH]; [reflexivity|]. cbn [Py.lower Py.rstrip_by].
  rewrite IH, is_space_lower.
  destruct (Py.rstrip_by Py.is_space s); [destruct (Py.is_space c)|]; reflexivity.
Qed.

Lemma strip_lower (s : string) : Py.strip (Py.lower s) = Py.lower (Py.strip s).
Proof. unfold Py.strip. rewrite lstrip_lower, rstrip_lower. reflexivity. Qed.

Lemma dmarc_part_trimmed (tags : gmap string string) (p : string) :
  trimmed_tags tags -> trimmed_tags (dmarc_part tags p).
Proof.
  intros Htags. unfold dmarc_part.
  destruct (Py.contains "=" p); [|exact Htags].
  destruct (Py.split_once "=" p) as [k v]. intros k' v'.
  destruct (decide (Py.lower (Py.strip k) = k')) as [<-|Hne].
  - rewrite lookup_insert_eq. intros [= <-].
    split; [apply lower_idem|]. split; [|apply strip_idem].
    rewrite strip_lower, strip_idem. reflexivity.
  - rewrite lookup_insert_ne by exact Hne. apply Htags.
Qed.

(** X9: whatever the text, every tag name of the parsed mapping is
    lower-cased and has no whitespace around it, and every value has no
    whitespace around it. *)
Theorem parsed_tags_are_trimmed (dmarc_text k v : string) :
  parse_dmarc dmarc_text !! k = Some v ->
  Py.lower k = k /\ Py.strip k = k /\ Py.strip v = v.
Proof.
  revert k v. change (trimmed_tags (parse_dmarc dmarc_text)). unfold parse_dmarc.
  assert (H : forall parts tags,
             trimmed_tags tags -> trimmed_tags (fold_left dmarc_part parts tags)).
  { induction parts as [|p parts IH]; intros tags Htags; cbn [fold_left]; [exact Htags|].
    apply IH, dmarc_part_trimmed, Htags. }
  apply H. intros k v Hk. rewrite lookup_empty in Hk. discriminate Hk.
Qed.

Lemma parsed_tags_are_trimmed_witness :
  Py.lower "rua" = "rua" /\ Py.strip "rua" = "rua"
  /\ Py.strip "mailto:x@y.com" = "mailto:x@y.com".
Proof.
  apply (parsed_tags_are_trimmed " V=DMARC1 ;  RUA = mailto:x@y.com " "rua" "mailto:x@y.com").
  vm_compute. reflexivity.
Defined.

(** ** The DKIM selector prober, again *)

Lemma choose_dkim_txt_in (t0 : string) (txts : list string) :
  choose_dkim_txt t0 (t0 :: txts) ∈ t0 :: txts.
Proof.
  unfold choose_dkim_txt.
  destruct (find _ (t0 :: txts)) as [t|] eqn:Hf; [|left].
  destruct (Py.truthy t); [|left]. apply (find_some_in _ _ _ Hf).
Qed.

(** A probe returns unless its query raises; it is absent exactly when the
    answer is empty. *)
Lemma probe_answer (dns_query_txt : string -> answer) (domain sel : string) :
  match check_dkim_selector dns_query_txt domain sel with
  | Returns info =>
      exists txts,
        dns_query_txt (sel ++ "._domainkey." ++ domain) = Txts txts
        /\ selector info = sel
        /\ (present info = false <-> txts = [])
  | Raises e => dns_query_txt (sel ++ "._domainkey." ++ domain) = Raised e
  end.
Proof.
  unfold check_dkim_selector.
  destruct (dns_query_txt _) as [txts|e]; [|reflexivity].
  exists txts. split; [reflexivity|].
  destruct txts as [|t0 txts]; cbn [dkim_info selector present];
    repeat split; discriminate.
Qed.

(** X10: a probe returns unless its query raises, and then raises the same
    exception; the result carries the selector and the name queried; it is
    absent exactly when the answer is empty, and an absent result has no
    raw text, no key type, no bit estimate and no public key; the raw text
    of a present result is one of the answered TXT strings. *)
Theorem dkim_probe_presence
    (dns_query_txt : string -> answer) (domain sel : string) :
  match check_dkim_selector dns_query_txt domain sel with
  | Returns info =>
      exists txts,
        dns_query_txt (sel ++ "._domainkey." ++ domain) = Txts txts
        /\ selector info = sel
        /\ name info = sel ++ "._domainkey." ++ domain
        /\ (present info = false <-> txts = [])
        /\ (present info = false ->
            dkim_raw info = None /\ key_type info = None
            /\ key_bits_approx info = None /\ has_pub info = false)
        /\ (present info = true -> exists t, dkim_raw info = Some t /\ t ∈ txts)
  | Raises e => dns_query_txt (sel ++ "._domainkey." ++ domain) = Raised e
  end.
Proof.
  unfold check_dkim_selector.
  destruct (dns_query_txt _) as [txts|e]; [|reflexivity].
  exists txts. split; [reflexivity|].
  destruct txts as [|t0 txts]; cbn [dkim_info selector name present dkim_raw
                                     key_type key_bits_approx has_pub].
  - repeat split; try discriminate.
  - repeat split; try discriminate.
    exists (choose_dkim_txt t0 (t0 :: txts)). split; [reflexivity|].
    apply choose_dkim_txt_in.
Qed.

Lemma contains_nonempty (sub s : string) :
  sub <> "" -> Py.contains sub s = true -> Py.truthy s = true.
Proof.
  intros Hsub. destruct s as [|c s]; [|reflexivity].
  cbn. destruct sub; [congruence|discriminate].
Qed.

(** X11: the prober reads the first TXT string that holds [v=DKIM1] or
    [p=], whatever comes after it, and the first TXT string of the answer
    when none does. *)
Theorem dkim_probe_reads_first_key_record
    (dns_query_txt : string -> answer) (domain sel : string)
    (t0 : string) (txts : list string) :
  dns_query_txt (sel ++ "._domainkey." ++ domain) = Txts (t0 :: txts) ->
  exists info,
    check_dkim_selector dns_query_txt domain sel = Returns info
    /\ match find holds_key (t0 :: txts) with
       | Some t =>
           dkim_raw info = Some t
           /\ exists before after,
                t0 :: txts = app before (t :: after)
                /\ Forall (fun y => holds_key y = false) before
       | None => dkim_raw info = Some t0
       end.
Proof.
  intros Hans. unfold check_dkim_selector. rewrite Hans.
  eexists. split; [reflexivity|]. cbn [dkim_info dkim_raw]. unfold choose_dkim_txt.
  change (fun t => Py.contains "v=DKIM1" t || Py.contains "p=" t) with holds_key.
  pose proof (find_first holds_key (t0 :: txts)) as Hf.
  destruct (find holds_key (t0 :: txts)) as [t|]; [|reflexivity].
  destruct Hf as (b & a & Heq & Ht & Hb).
  assert (Htruthy : Py.truthy t = true).
  { unfold holds_key in Ht. apply orb_true_iff in Ht as [Ht|Ht];
      revert Ht; apply contains_nonempty; discriminate. }
  rewrite Htruthy. split; [reflexivity|eauto].
Qed.

Lemma dkim_probe_reads_first_key_record_witness :
  exists info,
    check_dkim_selector
      (dns_of_zone [("s1._domainkey.example.com",
                     ["some other text"; "k=rsa; p=MIGf"; "v=DKIM1; p=QUJD"])])
      "example.com" "s1" = Returns info
    /\ dkim_raw info = Some "k=rsa; p=MIGf".
Proof.
  destruct (dkim_probe_reads_first_key_record
              (dns_of_zone [("s1._domainkey.example.com",
                             ["some other text"; "k=rsa; p=MIGf"; "v=DKIM1; p=QUJD"])])
              "example.com" "s1" "some other text"
              ["k=rsa; p=MIGf"; "v=DKIM1; p=QUJD"] eq_refl) as (info & Hinfo & Hraw).
  exists info. split; [exact Hinfo|]. exact (proj1 Hraw).
Defined.

Lemma remove_spaces_clean (s : string) :
  clean_start Py.is_space s -> s <> "" -> remove_spaces s <> "".
Proof.
  destruct s as [|c s]; [congruence|]. simpl. intros -> _. discriminate.
Qed.

Lemma strip_clean (s : string) : clean_start Py.is_space (Py.strip s).
Proof. unfold Py.strip. apply rstrip_by_clean, lstrip_by_clean. Qed.

Lemma stripped_group1_clean (r : Re.regex) (txt pub : string) :
  stripped_group1 r txt = Some pub -> clean_start Py.is_space pub.
Proof.
  unfold stripped_group1. destruct (Re.search false r txt); [|discriminate].
  cbn. intros [= <-]. apply strip_clean.
Qed.

(** The public key, the presence and the bit estimate of a result, from the
    value its text carries in [p=]. *)
Lemma probe_key (dns_query_txt : string -> answer) (domain sel : string)
    (info : DKIMInfo) :
  check_dkim_selector dns_query_txt domain sel = Returns info ->
  match extracted_p info with
  | Some pub =>
      if Py.truthy pub && negb (String.eqb pub "-")
      then has_pub info = true /\ present info = true
           /\ key_bits_approx info = Some (6 * Z.of_nat (payload_length pub))%Z
           /\ (1 <= payload_length pub)%nat
      else has_pub info = false /\ key_bits_approx info = None
  | None => has_pub info = false /\ key_bits_approx info = None
  end.
Proof.
  unfold check_dkim_selector.
  destruct (dns_query_txt _) as [txts|e]; [|discriminate].
  intros [= <-]. unfold dkim_info, extracted_p.
  destruct txts as [|t0 txts];
    cbn [has_pub key_bits_approx dkim_raw present mbind option_bind]; [auto|].
  destruct (stripped_group1 DKIM_P_RE _) as [pub|] eqn:Hp; [|auto].
  destruct (Py.truthy pub && negb (String.eqb pub "-")) eqn:Hpub; [|auto].
  rewrite sub_spaces. fold (payload_length pub).
  apply andb_true_iff in Hpub as [Ht _]. apply truthy_spec in Ht.
  pose proof (remove_spaces_clean pub (stripped_group1_clean _ _ _ Hp) Ht) as Hne.
  assert (1 <= payload_length pub)%nat.
  { unfold payload_length. destruct (remove_spaces pub); [congruence|cbn; lia]. }
  repeat split; [f_equal; lia|assumption].
Qed.

(** X12: a result has a bit estimate exactly when it has a public key, and
    only a present result has one; the estimate is then 6 times the length
    of the extracted key without its whitespace, a length that is never 0:
    the estimate is a multiple of 6 and at least 6. *)
Theorem dkim_bits_follow_public_key
    (dns_query_txt : string -> answer) (domain sel : string) (info : DKIMInfo) :
  check_dkim_selector dns_query_txt domain sel = Returns info ->
  (has_pub info = true <-> is_Some (key_bits_approx info))
  /\ (has_pub info = true -> present info = true)
  /\ forall bits, key_bits_approx info = Some bits ->
       (6 <= bits)%Z /\ (6 | bits)%Z
       /\ exists pub, extracted_p info = Some pub
                      /\ bits = (6 * Z.of_nat (payload_length pub))%Z.
Proof.
  intros Hc. pose proof (probe_key _ _ _ _ Hc) as Hk.
  destruct (extracted_p info) as [pub|].
  - destruct (Py.truthy pub && negb (String.eqb pub "-")).
    + destruct Hk as (-> & -> & -> & Hlen). split; [split; eauto|].
      split; [reflexivity|]. intros bits [= <-].
      split; [lia|]. split; [exists (Z.of_nat (payload_length pub)); lia|eauto].
    + destruct Hk as [-> ->]. split; [|split]; try discriminate.
      split; [discriminate|]. intros [x H]. discriminate H.
  - destruct Hk as [-> ->]. split; [|split]; try discriminate.
    split; [discriminate|]. intros [x H]. discriminate H.
Qed.

Lemma dkim_bits_follow_public_key_witness :
  (6 <= 1536)%Z /\ (6 | 1536)%Z
  /\ exists pub,
       extracted_p (dkim_info "s1" "s1._domainkey.example.com"
                      (zone_lookup dkim_zone "s1._domainkey.example.com"))
         = Some pub
       /\ 1536%Z = (6 * Z.of_nat (payload_length pub))%Z.
Proof.
  apply (proj2 (proj2 (dkim_bits_follow_public_key (dns_of_zone dkim_zone)
                         "example.com" "s1" _ eq_refl)) 1536%Z).
  vm_compute. reflexivity.
Defined.

(** X13: for a result of the prober with a public key, the body of the
    scoring loop adds exactly one reason and takes off 10 points for a key
    of at most 170 characters (whitespace not counted), 3 points for one of
    171 to 341 characters and nothing for a longer one; a result without a
    public key leaves the verdict as it is. *)
Theorem dkim_score_by_key_length
    (dns_query_txt : string -> answer) (domain sel : string) (info : DKIMInfo)
    (v : verdict) :
  check_dkim_selector dns_query_txt domain sel = Returns info ->
  if has_pub info
  then exists pub,
         extracted_p info = Some pub
         /\ length (snd (score_dkim_info v info)) = S (length (snd v))
         /\ fst (score_dkim_info v info)
            = (fst v - (if (payload_length pub <=? 170)%nat then 10
                        else if (payload_length pub <=? 341)%nat then 3 else 0))%Z
  else score_dkim_info v info = v.
Proof.
  intros Hc. pose proof (probe_key _ _ _ _ Hc) as Hk. unfold score_dkim_info.
  destruct (extracted_p info) as [pub|].
  - destruct (Py.truthy pub && negb (String.eqb pub "-")).
    + destruct Hk as (-> & _ & -> & Hlen). exists pub. split; [reflexivity|].
      destruct (Z.eqb_spec (6 * Z.of_nat (payload_length pub)) 0); [lia|].
      destruct (Z.ltb_spec (6 * Z.of_nat (payload_length pub)) 1024);
        [|destruct (Z.ltb_spec (6 * Z.of_nat (payload_length pub)) 2048)];
        destruct (Nat.leb_spec (payload_length pub) 170);
        destruct (Nat.leb_spec (payload_length pub) 341); try lia;
        cbn [deduct note fst snd]; rewrite length_app; cbn [length]; split; lia.
    + destruct Hk as [-> ->]. reflexivity.
  - destruct Hk as [-> ->]. reflexivity.
Qed.

Lemma dkim_score_by_key_length_witness :
  exists pub,
    extracted_p (dkim_info "s1" "s1._domainkey.example.com"
                   (zone_lookup dkim_zone "s1._domainkey.example.com")) = Some pub
    /\ length (snd (score_dkim_info (100%Z, [])
                      (dkim_info "s1" "s1._domainkey.example.com"
                         (zone_lookup dkim_zone "s1._domainkey.example.com")))) = 1%nat
    /\ fst (score_dkim_info (100%Z, [])
              (dkim_info "s1" "s1._domainkey.example.com"
                 (zone_lookup dkim_zone "s1._domainkey.example.com")))
       = (100 - (if (payload_length pub <=? 170)%nat then 10
                 else if (payload_length pub <=? 341)%nat then 3 else 0))%Z.
Proof.
  exact (dkim_score_by_key_length (dns_of_zone dkim_zone) "example.com" "s1" _
           (100%Z, []) eq_refl).
Defined.

(** ** DKIM discovery *)

(** What the loop of the discovery adds to [found]. *)
Lemma discover_loop_spec (dns_query_txt : string -> answer) (domain : string)
    (selectors : list string) :
  forall found : list DKIMInfo,
    match discover_loop dns_query_txt domain selectors found with
    | Returns infos =>
        exists new,
          infos = app found new
          /\ sublist (map selector new) selectors
          /\ (forall i, i ∈ new <->
                exists sel, sel ∈ selectors
                  /\ check_dkim_selector dns_query_txt domain sel = Returns i
                  /\ present i = true)
          /\ (forall sel, sel ∈ selectors ->
                exists i, check_dkim_selector dns_query_txt domain sel = Returns i)
    | Raises e =>
        exists sel, sel ∈ selectors
          /\ check_dkim_selector dns_query_txt domain sel = Raises e
    end.
Proof.
  induction selectors as [|sel selectors IH]; intros found; cbn [discover_loop].
  - exists []. rewrite app_nil_r. split; [reflexivity|]. split; [constructor|].
    split.
    + intros i. split; [intros H; inversion H|intros (s & H & _); inversion H].
    + intros s H. inversion H.
  - destruct (check_dkim_selector dns_query_txt domain sel) as [info|e] eqn:Hsel.
    + pose proof (probe_answer dns_query_txt domain sel) as Hprobe.
      rewrite Hsel in Hprobe. destruct Hprobe as (txts & _ & Hselector & _).
      specialize (IH (if present info then app found [info] else found)).
      destruct (discover_loop _ _ _ _) as [infos|e]; cbn [map].
      * destruct IH as (new & -> & Hsub & Hin & Hall).
        exists (if present info then info :: new else new).
        split; [destruct (present info); [rewrite <- app_assoc|]; reflexivity|].
        split; [destruct (present info); cbn [map];
                [rewrite Hselector; apply sublist_skip|apply sublist_cons]; exact Hsub|].
        split.
        -- intros i. split.
           ++ intros Hi.
              assert (Hcase : (present info = true /\ i = info) \/ i ∈ new).
              { destruct (present info); [|right; exact Hi].
                apply elem_of_cons in Hi as [->|Hi]; [left|right]; auto. }
              destruct Hcase as [[Hp ->]|Hi'].
              ** exists sel. split; [left|]. split; assumption.
              ** apply Hin in Hi' as (s & Hs & Hc & Hp).
                 exists s. split; [right; exact Hs|]. split; assumption.
           ++ intros (s & [->|Hs]%elem_of_cons & Hc & Hp).
              ** rewrite Hsel in Hc. injection Hc as ->. rewrite Hp. left.
              ** assert (Hi : i ∈ new) by (apply Hin; eauto).
                 destruct (present info); [right|]; exact Hi.
        -- intros s [->|Hs]%elem_of_cons; [eauto|apply Hall, Hs].
      * destruct IH as (s & Hs & Hc). exists s. split; [right; exact Hs|exact Hc].
    + exists sel. split; [left|exact Hsel].
Qed.

Lemma default_selectors_NoDup : NoDup DEFAULT_DKIM_SELECTORS.
Proof. refine (bool_decide_unpack _ _). vm_compute. exact I. Qed.

Lemma aggressive_selectors_NoDup : NoDup AGGRESSIVE_DKIM_SELECTORS.
Proof. refine (bool_decide_unpack _ _). vm_compute. exact I. Qed.

Lemma default_selectors_aggressive :
  DEFAULT_DKIM_SELECTORS ⊆ AGGRESSIVE_DKIM_SELECTORS.
Proof.
  intros sel Hsel. unfold DEFAULT_DKIM_SELECTORS in Hsel.
  repeat (apply elem_of_cons in Hsel as [->|Hsel];
          [unfold AGGRESSIVE_DKIM_SELECTORS; repeat constructor|]).
  inversion Hsel.
Qed.

(** X14: a discovery returns the present results only, in the order of the
    candidate list and without repetition, and a candidate is among them
    exactly when its name answers with at least one TXT string; it raises
    only what the probe of one of its candidates raises. *)
Theorem discovery_follows_candidate_order
    (dns_query_txt : string -> answer) (domain : string) (aggressive : bool) :
  match discover_dkim_selectors dns_query_txt domain aggressive with
  | Returns infos =>
      Forall (fun i => present i = true) infos
      /\ sublist (map selector infos) (candidates aggressive)
      /\ NoDup (map selector infos)
      /\ (forall sel, sel ∈ candidates aggressive ->
            (sel ∈ map selector infos <->
             exists t txts,
               dns_query_txt (sel ++ "._domainkey." ++ domain) = Txts (t :: txts)))
  | Raises e =>
      exists sel, sel ∈ candidates aggressive
        /\ dns_query_txt (sel ++ "._domainkey." ++ domain) = Raised e
  end.
Proof.
  unfold discover_dkim_selectors. fold (candidates aggressive).
  pose proof (discover_loop_spec dns_query_txt domain (candidates aggressive) []) as H.
  destruct (discover_loop _ _ _ _) as [infos|e].
  - destruct H as (new & -> & Hsub & Hin & Hall). cbn [app].
    split; [|split; [exact Hsub|split]].
    + apply Forall_forall. intros i Hi%Hin. destruct Hi as (s & _ & _ & Hp). exact Hp.
    + eapply sublist_NoDup; [|exact Hsub].
      destruct aggressive; [apply aggressive_selectors_NoDup|apply default_selectors_NoDup].
    + intros sel Hsel. rewrite list_elem_of_fmap. split.
      * intros (i & -> & Hi%Hin). destruct Hi as (s & Hs & Hc & Hp).
        pose proof (probe_answer dns_query_txt domain s) as Hprobe.
        rewrite Hc in Hprobe. destruct Hprobe as (txts & Hans & Hselector & Hpres).
        rewrite Hselector. destruct txts as [|t txts]; [|eauto].
        rewrite (proj2 Hpres eq_refl) in Hp. discriminate Hp.
      * intros (t & txts & Hans).
        pose proof (probe_answer dns_query_txt domain sel) as Hprobe.
        destruct (check_dkim_selector dns_query_txt domain sel) as [i|e] eqn:Hc;
          [|congruence].
        destruct Hprobe as (txts' & Hans' & Hselector & Hpres).
        exists i. split; [symmetry; exact Hselector|]. apply Hin.
        exists sel. split; [exact Hsel|]. split; [exact Hc|].
        destruct (present i); [reflexivity|].
        assert (txts' = []) by (apply Hpres; reflexivity). congruence.
  - destruct H as (s & Hs & Hc). exists s. split; [exact Hs|].
    pose proof (probe_answer dns_query_txt domain s) as Hprobe.
    rewrite Hc in Hprobe. exact Hprobe.
Qed.

Lemma discover_candidates (dns_query_txt : string -> answer) (domain : string)
    (aggressive : bool) :
  discover_dkim_selectors dns_query_txt domain aggressive
  = discover_loop dns_query_txt domain (candidates aggressive) [].
Proof. unfold discover_dkim_selectors, candidates. reflexivity. Qed.

Lemma candidates_widen : candidates false ⊆ candidates true.
Proof. exact default_selectors_aggressive. Qed.

(** What the default discovery finds, the aggressive one finds. *)
Lemma default_found_in_aggressive
    (dns_query_txt : string -> answer) (domain : string)
    (narrow wide : list DKIMInfo) :
  discover_dkim_selectors dns_query_txt domain false = Returns narrow ->
  discover_dkim_selectors dns_query_txt domain true = Returns wide ->
  narrow ⊆ wide.
Proof.
  rewrite !discover_candidates. intros Hnarrow Hwide.
  pose proof (discover_loop_spec dns_query_txt domain (candidates true) []) as Hw.
  pose proof (discover_loop_spec dns_query_txt domain (candidates false) []) as Hn.
  rewrite Hnarrow in Hn. rewrite Hwide in Hw.
  destruct Hw as (new & -> & _ & Hin & _). destruct Hn as (new' & -> & _ & Hin' & _).
  cbn [app]. intros i (s & Hs & Hc & Hp)%Hin'. apply Hin.
  exists s. split; [apply candidates_widen, Hs|]. split; assumption.
Qed.

(** X15: whenever the aggressive discovery returns, the default one returns
    too, and every result of the default discovery is among the results of
    the aggressive one. *)
Theorem discovery_aggressive_finds_more
    (dns_query_txt : string -> answer) (domain : string) :
  match discover_dkim_selectors dns_query_txt domain true with
  | Returns wide =>
      exists narrow,
        discover_dkim_selectors dns_query_txt domain false = Returns narrow
        /\ narrow ⊆ wide
  | Raises _ => True
  end.
Proof.
  destruct (discover_dkim_selectors dns_query_txt domain true) as [wide|e] eqn:Hwide;
    [|exact I].
  destruct (discover_dkim_selectors dns_query_txt domain false) as [narrow|e] eqn:Hnarrow.
  - exists narrow. split; [reflexivity|].
    apply (default_found_in_aggressive _ _ _ _ Hnarrow Hwide).
  - exfalso. rewrite discover_candidates in Hnarrow, Hwide.
    pose proof (discover_loop_spec dns_query_txt domain (candidates true) []) as Hw.
    pose proof (discover_loop_spec dns_query_txt domain (candidates false) []) as Hn.
    rewrite Hnarrow in Hn. rewrite Hwide in Hw.
    destruct Hw as (new & _ & _ & _ & Hall). destruct Hn as (s & Hs & Hc).
    destruct (Hall s (candidates_widen s Hs)) as [i Hi].
    rewrite Hi in Hc. discriminate Hc.
Qed.

(** ** The scoring engine, again *)

Lemma uniform_id : uniform (fun v => v).
Proof.
  exists 0%Z, []. split; [simpl; lia|]. intros [a l]. simpl.
  rewrite app_nil_r. f_equal. lia.
Qed.

Lemma uniform_deduct (n : Z) (r : string) :
  (0 <= n <= 40)%Z -> uniform (deduct n r).
Proof. intros Hn. exists n, [r]. split; [simpl; lia|]. reflexivity. Qed.

Lemma uniform_note (r : string) : uniform (note r).
Proof.
  exists 0%Z, [r]. split; [simpl; lia|]. intros [a l]. unfold note. simpl.
  f_equal. lia.
Qed.

Lemma uniform_compose (f g : verdict -> verdict) :
  uniform f -> uniform g -> uniform (fun v => g (f v)).
Proof.
  intros (c1 & r1 & H1 & Hf) (c2 & r2 & H2 & Hg).
  exists (c1 + c2)%Z, (app r1 r2). split.
  - rewrite length_app. lia.
  - intros v. rewrite Hf, Hg. simpl. rewrite app_assoc. f_equal. lia.
Qed.

Lemma uniform_ext (f g : verdict -> verdict) :
  (forall v, f v = g v) -> uniform f -> uniform g.
Proof.
  intros Hfg (c & r & H & Hf). exists c, r. split; [exact H|].
  intros v. rewrite <- Hfg. apply Hf.
Qed.

Lemma uniform_fold {A : Type} (f : verdict -> A -> verdict) (l : list A) :
  (forall x, uniform (fun v => f v x)) -> uniform (fun v => fold_left f l v).
Proof.
  intros Hf. induction l as [|x l IH]; cbn [fold_left]; [apply uniform_id|].
  apply (uniform_compose (fun v => f v x) (fun v => fold_left f l v)); auto.
Qed.

(** Splitting a chain of deductions and notes into its links. *)
Ltac uniform_chain :=
  lazymatch goal with
  | |- uniform (fun v => v) => apply uniform_id
  | |- uniform (fun v => deduct ?n ?r (@?f v)) =>
      apply (uniform_compose f (deduct n r));
      [uniform_chain | apply uniform_deduct; lia]
  | |- uniform (fun v => note ?r (@?f v)) =>
      apply (uniform_compose f (note r)); [uniform_chain | apply uniform_note]
  | |- uniform (deduct ?n ?r) => apply uniform_deduct; lia
  | |- uniform (note ?r) => apply uniform_note
  end.

Ltac uniform_cases :=
  cbv zeta;
  repeat match goal with
         | |- context [if ?b then _ else _] => destruct b
         | |- context [match ?x with Some _ => _ | None => _ end] => destruct x
         end;
  uniform_chain.

Lemma uniform_spf_detail (d : SPFDetail) : uniform (fun v => score_spf_detail v d).
Proof.
  unfold score_spf_detail.
  destruct (all_mechanism d) as [[|c s]|]; uniform_cases.
Qed.

Lemma uniform_spf_lookups (n : Z) : uniform (score_spf_lookups n).
Proof.
  apply (uniform_ext (fun v => score_spf_lookups n v)); [reflexivity|].
  unfold score_spf_lookups. uniform_cases.
Qed.

Lemma uniform_spf_records (rs : list string) (ds : list SPFDetail) :
  uniform (score_spf_records rs ds).
Proof.
  apply (uniform_compose
           (fun v => if (Z.of_nat (length rs) >? 1)%Z
                     then deduct 30 "Multiple SPF records found (invalid SPF configuration)." v
                     else v)
           (fun v => fold_left score_spf_detail ds v)).
  - uniform_cases.
  - apply uniform_fold, uniform_spf_detail.
Qed.

Lemma uniform_spf (rs : list string) (ds : list SPFDetail) (n : Z) :
  uniform (score_spf rs ds n).
Proof.
  unfold score_spf. destruct rs; [uniform_chain|].
  apply (uniform_compose (score_spf_records _ ds) (score_spf_lookups n));
    [apply uniform_spf_records|apply uniform_spf_lookups].
Qed.

Lemma uniform_dmarc (t : option string) (tags : gmap string string) :
  uniform (score_dmarc t tags).
Proof.
  apply (uniform_ext (fun v => score_dmarc t tags v)); [reflexivity|].
  unfold score_dmarc. uniform_cases.
Qed.

Lemma uniform_dkim_info (k : DKIMInfo) : uniform (fun v => score_dkim_info v k).
Proof. unfold score_dkim_info. uniform_cases. Qed.

Lemma uniform_dkim (ks : list DKIMInfo) : uniform (score_dkim ks).
Proof.
  unfold score_dkim. destruct ks as [|k ks]; [uniform_chain|].
  apply (uniform_fold score_dkim_info), uniform_dkim_info.
Qed.

(** Deciding the comparisons of the two clamps. *)
Ltac clamp_cases :=
  repeat match goal with
         | |- context [(?a <? ?b)%Z] => destruct (Z.ltb_spec a b)
         | |- context [(?a >? ?b)%Z] => destruct (Z.gtb_spec a b)
         end;
  lia.

(** The verdict before the clamps is 100 minus a cost, with the reasons. *)
Lemma score_rules_uniform
    (spf_records : list string) (spf_details : list SPFDetail)
    (spf_lookup_count : Z) (spf_errors : list string)
    (dmarc_text : option string) (dmarc_tags : gmap string string)
    (dkim_infos : list DKIMInfo) :
  exists cost,
    (0 <= cost)%Z
    /\ (cost <= 40 * Z.of_nat (length (snd (score_rules spf_records spf_details
                 spf_lookup_count spf_errors dmarc_text dmarc_tags dkim_infos))))%Z
    /\ fst (score_rules spf_records spf_details spf_lookup_count spf_errors
              dmarc_text dmarc_tags dkim_infos) = (100 - cost)%Z.
Proof.
  unfold score_rules.
  destruct (uniform_compose _ _
              (uniform_compose _ _ (uniform_spf spf_records spf_details spf_lookup_count)
                 (uniform_dmarc dmarc_text dmarc_tags))
              (uniform_dkim dkim_infos)) as (cost & rs & Hc & H).
  rewrite (H (100%Z, [])). exists cost. simpl. lia.
Qed.

(** X16: every point taken off is backed by a reason: at most 40 points per
    reason, so a score below 100 never comes with an empty list of
    reasons. *)
Theorem score_deductions_have_reasons
    (spf_records : list string) (spf_details : list SPFDetail)
    (spf_lookup_count : Z) (spf_errors : list string)
    (dmarc_text : option string) (dmarc_tags : gmap string string)
    (dkim_infos : list DKIMInfo) :
  let c := score_and_conclusions spf_records spf_details spf_lookup_count
             spf_errors dmarc_text dmarc_tags dkim_infos in
  (100 - score c <= 40 * Z.of_nat (length (reasons c)))%Z
  /\ ((score c < 100)%Z -> reasons c <> []).
Proof.
  intros c.
  assert (H : (100 - score c <= 40 * Z.of_nat (length (reasons c)))%Z).
  { subst c. unfold score_and_conclusions. cbn [score reasons].
    destruct (score_rules_uniform spf_records spf_details spf_lookup_count
                spf_errors dmarc_text dmarc_tags dkim_infos) as (cost & H0 & H1 & ->).
    unfold clamp_high, clamp_low. clamp_cases. }
  split; [exact H|]. intros Hlt Hnil. rewrite Hnil in H. cbn [length] in H. lia.
Qed.

Lemma clamped_mono (a b : Z) :
  (a <= b)%Z -> (clamp_high (clamp_low a) <= clamp_high (clamp_low b))%Z.
Proof. intros H. unfold clamp_high, clamp_low. clamp_cases. Qed.

Lemma uniform_mono (f : verdict -> verdict) (v1 v2 : verdict) :
  uniform f -> (fst v1 <= fst v2)%Z -> (fst (f v1) <= fst (f v2))%Z.
Proof. intros (c & r & _ & Hf) H. rewrite !Hf. simpl. lia. Qed.

Lemma score_spf_lookups_mono (n m : Z) (v : verdict) :
  (n <= m)%Z -> (fst (score_spf_lookups m v) <= fst (score_spf_lookups n v))%Z.
Proof.
  intros H. unfold score_spf_lookups, SPF_DNS_LOOKUP_LIMIT.
  repeat match goal with
         | |- context [(?a >? ?b)%Z] => destruct (Z.gtb_spec a b)
         end; cbn [deduct fst]; lia.
Qed.

(** X17: more lookups never give a better score: with everything else
    equal, the score for a larger total lookup count is at most the score
    for a smaller one. *)
Theorem score_falls_with_lookups
    (spf_records : list string) (spf_details : list SPFDetail)
    (n m : Z) (spf_errors : list string)
    (dmarc_text : option string) (dmarc_tags : gmap string string)
    (dkim_infos : list DKIMInfo) :
  (n <= m)%Z ->
  (score (score_and_conclusions spf_records spf_details m spf_errors
            dmarc_text dmarc_tags dkim_infos)
   <= score (score_and_conclusions spf_records spf_details n spf_errors
               dmarc_text dmarc_tags dkim_infos))%Z.
Proof.
  intros H. unfold score_and_conclusions. cbn [score]. apply clamped_mono.
  unfold score_rules.
  apply (uniform_mono _ _ _ (uniform_dkim dkim_infos)).
  apply (uniform_mono _ _ _ (uniform_dmarc dmarc_text dmarc_tags)).
  unfold score_spf. destruct spf_records; [reflexivity|].
  apply score_spf_lookups_mono, H.
Qed.

Lemma score_falls_with_lookups_witness :
  (score (score_and_conclusions ["v=spf1 mx -all"] [] 11 [] None ∅ [])
   <= score (score_and_conclusions ["v=spf1 mx -all"] [] 8 [] None ∅ []))%Z.
Proof.
  apply (score_falls_with_lookups ["v=spf1 mx -all"] [] 8 11 [] None ∅ []). lia.
Defined.

Lemma lookup_other (k p : string) (tags : gmap string string) :
  k <> "p" -> <["p" := p]> tags !! k = tags !! k.
Proof. intros H. apply lookup_insert_ne. congruence. Qed.

(** The DMARC block for a given policy value, the other tags unchanged. *)
Lemma score_dmarc_policy (t : string) (tags : gmap string string) (p : string)
    (v : verdict) :
  Py.truthy t = true ->
  exists cost, (0 <= cost)%Z /\ forall q,
    fst (score_dmarc (Some t) (<["p" := q]> tags) v)
    = (fst v - cost - policy_cost q)%Z.
Proof.
  intros Ht.
  exists ((if (default 100 (Py.int_of_str (default "100" (tags !! "pct"))) <? 100)%Z
           then 5 else 0)
          + (match tags !! "rua" with None => 3 | Some _ => 0 end))%Z.
  split; [destruct (_ <? 100)%Z; destruct (tags !! "rua"); lia|].
  intros q. unfold score_dmarc, policy_cost. cbn [absent]. rewrite Ht. cbn [negb].
  rewrite lookup_insert_eq. rewrite !lookup_other by discriminate.
  change (default "" (Some q)) with q.
  destruct (_ || _); [|destruct (String.eqb (Py.lower q) "quarantine");
                        [|destruct (String.eqb (Py.lower q) "reject")]];
    destruct (_ <? 100)%Z; destruct (tags !! "rua"); cbn [deduct note fst]; lia.
Qed.

(** X18: with a DMARC record present and the other tags unchanged, the
    policy decides the cost before the clamps: [p=quarantine] costs 3 more
    than [p=reject], [p=none] costs 10 more, and no policy value scores
    better than [p=reject]. *)
Theorem score_ranks_dmarc_policies
    (spf_records : list string) (spf_details : list SPFDetail)
    (spf_lookup_count : Z) (spf_errors : list string)
    (dmarc_text : string) (dmarc_tags : gmap string string)
    (dkim_infos : list DKIMInfo) :
  Py.truthy dmarc_text = true ->
  let raw p := fst (score_rules spf_records spf_details spf_lookup_count
                      spf_errors (Some dmarc_text) (<["p" := p]> dmarc_tags)
                      dkim_infos) in
  let final p := score (score_and_conclusions spf_records spf_details
                          spf_lookup_count spf_errors (Some dmarc_text)
                          (<["p" := p]> dmarc_tags) dkim_infos) in
  raw "quarantine" = (raw "reject" - 3)%Z
  /\ raw "none" = (raw "reject" - 10)%Z
  /\ (forall p, (raw p <= raw "reject")%Z)
  /\ (final "none" <= final "quarantine" <= final "reject")%Z
  /\ (forall p, (final p <= final "reject")%Z).
Proof.
  intros Ht raw final.
  destruct (uniform_dkim dkim_infos) as (ck & rk & _ & Hk).
  destruct (score_dmarc_policy dmarc_text dmarc_tags ""
              (score_spf spf_records spf_details spf_lookup_count (100%Z, [])) Ht)
    as (cost & Hcost & Hd).
  assert (Hraw : forall p, raw p =
            (fst (score_spf spf_records spf_details spf_lookup_count (100%Z, []))
             - cost - policy_cost p - ck)%Z).
  { intros p. subst raw. cbv beta. unfold score_rules. rewrite Hk. cbn [fst].
    rewrite Hd. reflexivity. }
  assert (Hbest : forall p, (raw p <= raw "reject")%Z).
  { intros p. rewrite (Hraw p), (Hraw "reject").
    change (policy_cost "reject") with 0%Z. unfold policy_cost.
    destruct (_ || _); [|destruct (String.eqb _ _)]; lia. }
  assert (Hfinal : forall p, final p = clamp_high (clamp_low (raw p))) by reflexivity.
  assert (Hq : raw "quarantine" = (raw "reject" - 3)%Z).
  { rewrite (Hraw "quarantine"), (Hraw "reject").
    change (policy_cost "reject") with 0%Z.
    change (policy_cost "quarantine") with 3%Z. lia. }
  assert (Hn : raw "none" = (raw "reject" - 10)%Z).
  { rewrite (Hraw "none"), (Hraw "reject").
    change (policy_cost "reject") with 0%Z.
    change (policy_cost "none") with 10%Z. lia. }
  split; [exact Hq|]. split; [exact Hn|]. split; [exact Hbest|]. split.
  - rewrite !Hfinal. split; apply clamped_mono; lia.
  - intros p. rewrite !Hfinal. apply clamped_mono, Hbest.
Qed.

Lemma score_ranks_dmarc_policies_witness :
  (score (score_and_conclusions [] [] 0 [] (Some "v=DMARC1; p=none")
            (<["p" := "none"]> (parse_dmarc "v=DMARC1; p=none")) [])
   <= score (score_and_conclusions [] [] 0 [] (Some "v=DMARC1; p=none")
               (<["p" := "reject"]> (parse_dmarc "v=DMARC1; p=none")) []))%Z.
Proof.
  apply (proj2 (proj2 (proj2 (proj2
           (score_ranks_dmarc_policies [] [] 0 [] "v=DMARC1; p=none"
              (parse_dmarc "v=DMARC1; p=none") [] eq_refl)))) "none").
Defined.

Lemma uniform_at_start (f : verdict -> verdict) :
  uniform f ->
  forall v, f v = ((fst v - (100 - fst (f (100%Z, []))))%Z,
                   app (snd v) (snd (f (100%Z, [])))).
Proof.
  intros (c & rs & _ & Hf) v. rewrite (Hf (100%Z, [])), (Hf v). cbn [fst snd app].
  f_equal. lia.
Qed.

(** X19: the three blocks of rules do not depend on one another: the
    reasons are those of the SPF block, then those of the DMARC block, then
    those of the DKIM block, each as the block gives them on its own, and
    the points taken off before the clamps are the sum of what each block
    takes off on its own. *)
Theorem score_blocks_are_independent
    (spf_records : list string) (spf_details : list SPFDetail)
    (spf_lookup_count : Z) (spf_errors : list string)
    (dmarc_text : option string) (dmarc_tags : gmap string string)
    (dkim_infos : list DKIMInfo) :
  let start : verdict := (100%Z, []) in
  let spf := score_spf spf_records spf_details spf_lookup_count start in
  let dmarc := score_dmarc dmarc_text dmarc_tags start in
  let dkim := score_dkim dkim_infos start in
  let all := score_rules spf_records spf_details spf_lookup_count spf_errors
               dmarc_text dmarc_tags dkim_infos in
  reasons (score_and_conclusions spf_records spf_details spf_lookup_count
             spf_errors dmarc_text dmarc_tags dkim_infos)
    = app (snd spf) (app (snd dmarc) (snd dkim))
  /\ (100 - fst all = (100 - fst spf) + (100 - fst dmarc) + (100 - fst dkim))%Z
  /\ (0 <= 100 - fst spf)%Z /\ (0 <= 100 - fst dmarc)%Z /\ (0 <= 100 - fst dkim)%Z.
Proof.
  intros start spf dmarc dkim all.
  assert (Hall : all = ((fst spf - (100 - fst dmarc) - (100 - fst dkim))%Z,
                        app (app (snd spf) (snd dmarc)) (snd dkim))).
  { subst all. unfold score_rules.
    rewrite (uniform_at_start _ (uniform_dkim dkim_infos)).
    rewrite (uniform_at_start _ (uniform_dmarc dmarc_text dmarc_tags)).
    reflexivity. }
  unfold score_and_conclusions. cbn [reasons]. fold all. rewrite Hall. cbn [fst snd].
  split; [symmetry; apply app_assoc|]. split; [lia|].
  destruct (uniform_spf spf_records spf_details spf_lookup_count) as (c1 & r1 & H1 & E1).
  destruct (uniform_dmarc dmarc_text dmarc_tags) as (c2 & r2 & H2 & E2).
  destruct (uniform_dkim dkim_infos) as (c3 & r3 & H3 & E3).
  subst spf dmarc dkim start. rewrite E1, E2, E3. cbn [fst]. lia.
Qed.

(** ** The report assembler *)

Lemma listed_mechanisms_app (a b : list SPFDetail) :
  listed_mechanisms (app a b) = (listed_mechanisms a + listed_mechanisms b)%Z.
Proof. induction a as [|d a IH]; cbn [listed_mechanisms app]; [reflexivity|]. rewrite IH. lia. Qed.

Lemma resolve_counts_root (dns_query_txt : string -> answer) (domain s : string) :
  exists r c e,
    resolve_spf_lookups dns_query_txt MAX_INCLUDE_RECURSION domain s = Some (r, c, e)
    /\ (Z.of_nat (length (lookup_mechanisms (parse_spf s))) <= c)%Z.
Proof.
  destruct (recurse_total dns_query_txt MAX_INCLUDE_RECURSION
              (enough MAX_INCLUDE_RECURSION 0) domain s 0 walk0) as [w Hw]; [lia|].
  exists (resolved w), (lookup_count w), (errors w).
  unfold resolve_spf_lookups, resolve_walk. rewrite Hw. split; [reflexivity|].
  apply (walk_counts_root dns_query_txt MAX_INCLUDE_RECURSION domain s w);
    [unfold MAX_INCLUDE_RECURSION; lia|exact Hw].
Qed.

Lemma spf_loop_spec (dns_query_txt : string -> answer) (domain : string)
    (spf_records : list string) :
  forall (ds : list SPFDetail) (total : Z) (errs : list string),
    exists more errs',
      spf_loop dns_query_txt domain spf_records (ds, total, errs)
        = Some (app ds (map parse_spf spf_records), (total + more)%Z, errs')
      /\ (listed_mechanisms (map parse_spf spf_records) <= more)%Z.
Proof.
  induction spf_records as [|s rs IH]; intros ds total errs; cbn [spf_loop map].
  - exists 0%Z, errs. rewrite app_nil_r, Z.add_0_r. split; [reflexivity|cbn; lia].
  - destruct (resolve_counts_root dns_query_txt domain s) as (r & c & e & -> & Hc).
    destruct (IH (app ds [parse_spf s]) (total + c)%Z (app errs e))
      as (more & errs' & -> & Hmore).
    exists (c + more)%Z, errs'. rewrite <- app_assoc. cbn [app listed_mechanisms].
    replace (total + (c + more))%Z with (total + c + more)%Z by lia.
    split; [reflexivity|lia].
Qed.

(** X20: a report is always produced unless one of its own three kinds of
    query raises: the TXT query of the domain, the one of
    [_dmarc.<domain>], or the probe of a candidate selector. What the
    queries of the include walk raise never aborts the report. *)
Theorem report_raises_only_its_own_queries
    (dns_query_txt : string -> answer) (domain : string) (aggressive_dkim : bool) :
  exists o,
    generate_report dns_query_txt domain aggressive_dkim = Some o
    /\ match o with
       | Returns rep =>
           exists txts dtxts,
             dns_query_txt domain = Txts txts
             /\ dns_query_txt ("_dmarc." ++ domain) = Txts dtxts
             /\ forall sel, sel ∈ candidates aggressive_dkim ->
                  exists stxts,
                    dns_query_txt (sel ++ "._domainkey." ++ domain) = Txts stxts
       | Raises e =>
           dns_query_txt domain = Raised e
           \/ dns_query_txt ("_dmarc." ++ domain) = Raised e
           \/ exists sel, sel ∈ candidates aggressive_dkim
                /\ dns_query_txt (sel ++ "._domainkey." ++ domain) = Raised e
       end.
Proof.
  unfold generate_report, get_spf_records, get_dmarc_record.
  destruct (dns_query_txt domain) as [txts|e] eqn:Hdom;
    [|exists (Raises e); split; [reflexivity|left; reflexivity]].
  destruct (spf_loop_spec dns_query_txt domain
              (filter (fun t => is_spf t = true) txts) [] 0%Z [])
    as (more & errs & -> & _).
  destruct (dns_query_txt ("_dmarc." ++ domain)) as [dtxts|e] eqn:Hdm;
    [|exists (Raises e); split; [reflexivity|right; left; reflexivity]].
  unfold discover_dkim_selectors. fold (candidates aggressive_dkim).
  pose proof (discover_loop_spec dns_query_txt domain (candidates aggressive_dkim) [])
    as Hd.
  destruct (discover_loop _ _ _ _) as [infos|e].
  - eexists. split; [reflexivity|]. exists txts, dtxts. split; [reflexivity|].
    split; [reflexivity|]. destruct Hd as (new & _ & _ & _ & Hall).
    intros sel Hsel. destruct (Hall sel Hsel) as [i Hi].
    pose proof (probe_answer dns_query_txt domain sel) as Hp.
    rewrite Hi in Hp. destruct Hp as (stxts & Hs & _). eauto.
  - eexists. split; [reflexivity|]. right. right.
    destruct Hd as (sel & Hsel & Hc). exists sel. split; [exact Hsel|].
    pose proof (probe_answer dns_query_txt domain sel) as Hp.
    rewrite Hc in Hp. exact Hp.
Qed.

(** X21: in a report, the details are the parsed records, one per record
    and in the same order; every record starts with [v=spf1]; the lookup
    estimate is at least the number of lookup mechanisms listed in the
    details; the tags are the parsed DMARC record, or empty without a
    record; every selector found is present; and the conclusions are those
    of the scoring engine for these very fields. *)
Theorem report_fields_agree
    (dns_query_txt : string -> answer) (domain : string) (aggressive_dkim : bool)
    (rep : Report) :
  generate_report dns_query_txt domain aggressive_dkim = Some (Returns rep) ->
  rep_spf_details rep = map parse_spf (rep_spf_records rep)
  /\ Forall (fun t => is_spf t = true) (rep_spf_records rep)
  /\ (listed_mechanisms (rep_spf_details rep) <= rep_lookup_count rep)%Z
  /\ rep_dmarc_tags rep
     = match rep_dmarc_raw rep with Some t => parse_dmarc t | None => ∅ end
  /\ (forall t, rep_dmarc_raw rep = Some t -> is_Some (rep_dmarc_tags rep !! "v"))
  /\ Forall (fun i => present i = true) (rep_found_selectors rep)
  /\ rep_conclusions rep
     = score_and_conclusions (rep_spf_records rep) (rep_spf_details rep)
         (rep_lookup_count rep) (rep_spf_errors rep) (rep_dmarc_raw rep)
         (rep_dmarc_tags rep) (rep_found_selectors rep).
Proof.
  unfold generate_report, get_spf_records, get_dmarc_record.
  destruct (dns_query_txt domain) as [txts|e]; [|discriminate].
  destruct (spf_loop_spec dns_query_txt domain
              (filter (fun t => is_spf t = true) txts) [] 0%Z [])
    as (more & errs & -> & Hmore).
  destruct (dns_query_txt ("_dmarc." ++ domain)) as [dtxts|e]; [|discriminate].
  unfold discover_dkim_selectors. fold (candidates aggressive_dkim).
  pose proof (discover_loop_spec dns_query_txt domain (candidates aggressive_dkim) [])
    as Hd.
  destruct (discover_loop _ _ _ _) as [infos|e]; [|discriminate].
  intros [= <-]. cbn [rep_spf_details rep_spf_records rep_lookup_count rep_dmarc_tags
                      rep_dmarc_raw rep_found_selectors rep_conclusions
                      rep_spf_errors app].
  assert (Htags : match find is_dmarc dtxts with
                  | Some t => if Py.truthy t then parse_dmarc t else ∅
                  | None => ∅
                  end = match find is_dmarc dtxts with
                        | Some t => parse_dmarc t
                        | None => ∅
                        end
                  /\ forall t, find is_dmarc dtxts = Some t ->
                       is_Some (parse_dmarc t !! "v")).
  { pose proof (find_first is_dmarc dtxts) as Hf.
    destruct (find is_dmarc dtxts) as [t|]; [|split; [reflexivity|discriminate]].
    destruct Hf as (_ & _ & _ & Ht & _).
    destruct (dmarc_record_has_version t Ht) as [-> Hv].
    split; [reflexivity|]. intros t' [= <-]. exact Hv. }
  destruct Htags as [Htags Hv]. rewrite Htags.
  split; [reflexivity|]. split.
  { apply Forall_forall. intros t Ht. apply list_elem_of_filter in Ht as [Ht _]. exact Ht. }
  split; [lia|]. split; [reflexivity|]. split.
  { intros t Ht. rewrite Ht. apply Hv, Ht. }
  split; [|reflexivity].
  destruct Hd as (new & -> & _ & Hin & _). cbn [app].
  apply Forall_forall. intros i Hi%Hin. destruct Hi as (s & _ & _ & Hp). exact Hp.
Qed.

(** X22: the aggressive mode changes the DKIM part of a report only: the
    records, the details, the lookup estimate, the SPF errors, the DMARC
    text and the tags are the same in both modes, and every selector found
    in the default mode is also found in the aggressive one. *)
Theorem report_modes_differ_in_dkim_only
    (dns_query_txt : string -> answer) (domain : string) (rep wide : Report) :
  generate_report dns_query_txt domain false = Some (Returns rep) ->
  generate_report dns_query_txt domain true = Some (Returns wide) ->
  rep_spf_records rep = rep_spf_records wide
  /\ rep_spf_details rep = rep_spf_details wide
  /\ rep_lookup_count rep = rep_lookup_count wide
  /\ rep_spf_errors rep = rep_spf_errors wide
  /\ rep_dmarc_raw rep = rep_dmarc_raw wide
  /\ rep_dmarc_tags rep = rep_dmarc_tags wide
  /\ rep_found_selectors rep ⊆ rep_found_selectors wide.
Proof.
  unfold generate_report.
  destruct (get_spf_records dns_query_txt domain) as [recs|e]; [|discriminate].
  destruct (spf_loop dns_query_txt domain recs ([], 0%Z, [])) as [[[ds total] errs]|];
    [|discriminate].
  destruct (get_dmarc_record dns_query_txt domain) as [dtext|e]; [|discriminate].
  destruct (discover_dkim_selectors dns_query_txt domain false) as [narrow|e] eqn:Hn;
    [|discriminate].
  destruct (discover_dkim_selectors dns_query_txt domain true) as [more|e] eqn:Hw;
    [|discriminate].
  intros [= <-] [= <-]. cbn. repeat split.
  apply (default_found_in_aggressive _ _ _ _ Hn Hw).
Qed.

Lemma report_fields_agree_witness :
  exists rep,
    generate_report (dns_of_zone report_zone) "example.com" false = Some (Returns rep)
    /\ rep_spf_details rep = map parse_spf (rep_spf_records rep)
    /\ (listed_mechanisms (rep_spf_details rep) <= rep_lookup_count rep)%Z.
Proof.
  destruct (generate_report (dns_of_zone report_zone) "example.com" false)
    as [[rep|e]|] eqn:Hrep;
    [|vm_compute in Hrep; discriminate Hrep|vm_compute in Hrep; discriminate Hrep].
  exists rep. split; [reflexivity|].
  destruct (report_fields_agree (dns_of_zone report_zone) "example.com" false rep Hrep)
    as (Hdetails & _ & Hcount & _).
  split; assumption.
Defined.

Lemma report_modes_differ_in_dkim_only_witness :
  exists rep wide,
    generate_report (dns_of_zone report_zone) "example.com" false = Some (Returns rep)
    /\ generate_report (dns_of_zone report_zone) "example.com" true = Some (Returns wide)
    /\ rep_lookup_count rep = rep_lookup_count wide
    /\ rep_found_selectors rep ⊆ rep_found_selectors wide.
Proof.
  destruct (generate_report (dns_of_zone report_zone) "example.com" false)
    as [[rep|e]|] eqn:Hrep;
    [|vm_compute in Hrep; discriminate Hrep|vm_compute in Hrep; discriminate Hrep].
  destruct (generate_report (dns_of_zone report_zone) "example.com" true)
    as [[wide|e]|] eqn:Hwide;
    [|vm_compute in Hwide; discriminate Hwide|vm_compute in Hwide; discriminate Hwide].
  exists rep, wide. split; [reflexivity|]. split; [reflexivity|].
  destruct (report_modes_differ_in_dkim_only (dns_of_zone report_zone) "example.com"
              rep wide Hrep Hwide) as (_ & _ & Hcount & _ & _ & _ & Hfound).
  split; assumption.
Defined.
